(** * ESP_screen_receiver: the receive-render loop of the Bad Apple engine

    A shallow embedding of [ESP_screen_receiver.ino]: the frame renderer
    [drawFrameFast] and the Arduino [loop] that flushes the serial input,
    reads one frame, renders it and acknowledges it.

    C [int] values are modelled as [Z] (every index in the program stays
    far below the 32-bit range), [uint8_t] and [uint16_t] arrays as
    [list Z] with bounds-checked accesses, and the two collaborators the
    sketch talks to (the display and the serial port) as explicit state. *)

From stdpp Require Import base option list numbers.
From Stdlib Require Import ZArith Lia.

Local Open Scope Z_scope.

(** ** Constants (lines 8-10) *)

Definition FRAME_W : Z := 128.
Definition FRAME_H : Z := 96.
Definition BYTES_PER_FRAME : Z := (FRAME_W * FRAME_H) / 8.

(** Modelled from the spec: the colours [TFT_WHITE] and [TFT_BLACK] are
    macros of the TFT_eSPI header, which is not part of the repository.
    The spec names them the "on" colour (white) and the "off" colour
    (black); the values are the RGB565 codes of white and black. *)
Definition TFT_WHITE : Z := 0xFFFF.
Definition TFT_BLACK : Z := 0x0000.

(** The acknowledgement byte written at line 59. *)
Definition ACK : Z := 0xAA.

(** ** Arrays and pointers

    An array access outside the array is undefined behaviour in C; the
    embedding makes it a failure ([None]). *)

Definition load (a : list Z) (i : Z) : option Z :=
  if (0 <=? i) && (i <? Z.of_nat (length a)) then a !! Z.to_nat i else None.

Definition store (a : list Z) (i : Z) (v : Z) : option (list Z) :=
  if (0 <=? i) && (i <? Z.of_nat (length a)) then Some (<[Z.to_nat i := v]> a)
  else None.

(** A [const uint8_t *]: an array together with an offset into it. *)
Record ptr := Ptr { p_arr : list Z; p_off : Z }.

Definition ptr_add (p : ptr) (k : Z) : ptr := Ptr (p_arr p) (p_off p + k).
Definition ptr_load (p : ptr) (i : Z) : option Z := load (p_arr p) (p_off p + i).

(** ** Counting loops

    [for (int i = lo; i < hi; i++) body], for a body that does not assign
    [i]: the body runs [hi - lo] times (no time when [hi <= lo]) and a
    failing body aborts the loop. *)

Fixpoint for_loop {St : Type} (n : nat) (i : Z) (body : Z → St → option St) (s : St)
  : option St :=
  match n with
  | O => Some s
  | S n' => match body i s with
            | Some s' => for_loop n' (i + 1) body s'
            | None => None
            end
  end.

Definition for_ {St : Type} (lo hi : Z) (body : Z → St → option St) (s : St) : option St :=
  for_loop (Z.to_nat (hi - lo)) lo body s.

(** ** The display collaborator

    The sketch drives the panel through [tft.pushImage(x, y, w, h, data)]
    only.  The display is modelled by the chronological log of these
    transfers; each entry keeps the [w * h] colour values that were read
    from the caller's buffer at the time of the call. *)

Record PushOp := MkPush { px : Z; py : Z; pw : Z; ph : Z; pdata : list Z }.

Definition TFT := list PushOp.

Definition pushImage (x y w h : Z) (data : list Z) (t : TFT) : TFT :=
  t ++ [MkPush x y w h (take (Z.to_nat (w * h)) data)].

(** Surface readback: the colour a transfer leaves at [(x, y)], if it
    covers that position (row-major inside its window)... *)
Definition op_pixel (o : PushOp) (x y : Z) : option Z :=
  if (px o <=? x) && (x <? px o + pw o) && (py o <=? y) && (y <? py o + ph o)
  then pdata o !! Z.to_nat ((y - py o) * pw o + (x - px o))
  else None.

(** ... and the colour the surface shows there: that of the latest
    covering transfer, [None] where no logged transfer drew. *)
Definition readPixel (t : TFT) (x y : Z) : option Z :=
  fold_left (fun cur o => match op_pixel o x y with
                          | Some c => Some c
                          | None => cur
                          end) t None.

(** ** The renderer (lines 14-31)

    The renderer owns the static scanline buffer [lineBuf] and draws on
    the display; both are threaded through as [RState]. *)

Record RState := MkR { r_lineBuf : list Z; r_tft : TFT }.

(** Lines 23-25, the body of the column loop. *)
Definition column_body (rowData : ptr) (x : Z) (lineBuf : list Z) : option (list Z) :=
  match ptr_load rowData (Z.shiftr x 3) with
  | Some byte =>
      let pixel := negb (Z.land byte (Z.shiftr 0x80 (Z.land x 7)) =? 0) in
      store lineBuf x (if pixel then TFT_WHITE else TFT_BLACK)
  | None => None
  end.

(** Lines 19-29, the body of the row loop. *)
Definition row_body (data : ptr) (bytesPerRow : Z) (y : Z) (r : RState) : option RState :=
  let rowData := ptr_add data (y * bytesPerRow) in
  match for_ 0 FRAME_W (column_body rowData) (r_lineBuf r) with
  | Some lineBuf => Some (MkR lineBuf (pushImage 0 y FRAME_W 1 lineBuf (r_tft r)))
  | None => None
  end.

Definition drawFrameFast (data : ptr) (r : RState) : option RState :=
  let bytesPerRow := FRAME_W / 8 in
  for_ 0 FRAME_H (row_body data bytesPerRow) r.

(** ** The serial collaborator

    [rx] holds the bytes that sit in the receive buffer, oldest first;
    [wire] is what the link delivers afterwards, as the reader sees it: a
    byte (a value in 0..255) that arrives within the read timeout, or a
    silence that outlasts it; [tx] collects every byte written to the
    outbound channel. *)

Inductive wire_event := Rx (b : Z) | Silence.

Record SerialPort := MkSerial { rx : list Z; wire : list wire_event; tx : list Z }.

(** [Serial.available()]: the number of buffered bytes. *)
Definition Serial_available (s : SerialPort) : Z := Z.of_nat (length (rx s)).

(** [Serial.read()]: the oldest buffered byte, or -1 when there is none. *)
Definition Serial_read (s : SerialPort) : Z * SerialPort :=
  match rx s with
  | b :: r => (b, MkSerial r (wire s) (tx s))
  | [] => (-1, s)
  end.

(** [Stream::timedRead()]: a buffered byte if there is one, else the next
    byte of the link, or -1 once the timeout has expired. *)
Definition timedRead (s : SerialPort) : Z * SerialPort :=
  match rx s with
  | b :: r => (b, MkSerial r (wire s) (tx s))
  | [] => match wire s with
          | Rx b :: w => (b, MkSerial [] w (tx s))
          | Silence :: w => (-1, MkSerial [] w (tx s))
          | [] => (-1, s)
          end
  end.

(** [Stream::readBytes(buffer, length)]: stores bytes one by one until
    [length] of them were read or a [timedRead] timed out, and returns the
    count.  [n] is the number of bytes still wanted. *)
Fixpoint readBytes_loop (n : nat) (count : Z) (buffer : list Z) (s : SerialPort)
  : option (Z * list Z * SerialPort) :=
  match n with
  | O => Some (count, buffer, s)
  | S n' =>
      let (c, s') := timedRead s in
      if c <? 0 then Some (count, buffer, s')
      else match store buffer count c with
           | Some buffer' => readBytes_loop n' (count + 1) buffer' s'
           | None => None
           end
  end.

Definition Serial_readBytes (s : SerialPort) (buffer : list Z) (length : Z)
  : option (Z * list Z * SerialPort) :=
  readBytes_loop (Z.to_nat length) 0 buffer s.

(** [Serial.write(b)]. *)
Definition Serial_write (b : Z) (s : SerialPort) : SerialPort :=
  MkSerial (rx s) (wire s) (tx s ++ [b]).

(** ** The sketch's state and [loop] (lines 50-61) *)

Record World := MkWorld { frameBuf : list Z; rstate : RState; serial : SerialPort }.

(** [while (cond) body], run for at most [fuel] tests of the condition. *)
Fixpoint while_loop {St : Type} (fuel : nat) (cond : St → bool) (body : St → St) (s : St)
  : option St :=
  match fuel with
  | O => None
  | S fuel' => if cond s then while_loop fuel' cond body (body s) else Some s
  end.

(** Line 52.  Every [Serial.read()] removes one buffered byte, so the
    condition is tested at most once more than there are buffered bytes. *)
Definition flush (s : SerialPort) : option SerialPort :=
  while_loop (S (length (rx s)))
             (fun s => negb (Serial_available s =? 0))
             (fun s => snd (Serial_read s)) s.

(** Lines 55-60: the read attempt and what follows it. *)
Definition loop_after_flush (w : World) : option World :=
  match Serial_readBytes (serial w) (frameBuf w) BYTES_PER_FRAME with
  | Some (bytesRead, buf, s) =>
      if bytesRead =? BYTES_PER_FRAME then
        match drawFrameFast (Ptr buf 0) (rstate w) with
        | Some r => Some (MkWorld buf r (Serial_write ACK s))
        | None => None
        end
      else Some (MkWorld buf (rstate w) s)
  | None => None
  end.

Definition loop_ (w : World) : option World :=
  match flush (serial w) with
  | Some s => loop_after_flush (MkWorld (frameBuf w) (rstate w) s)
  | None => None
  end.

(** The environment between two cycles: while the sketch is busy, up to
    [k] bytes that the link delivers without a pause move into the receive
    buffer. *)
Fixpoint uart_arrive (k : nat) (s : SerialPort) : SerialPort :=
  match k with
  | O => s
  | S k' => match wire s with
            | Rx b :: w => uart_arrive k' (MkSerial (rx s ++ [b]) w (tx s))
            | _ => s
            end
  end.

(** Consecutive cycles of [loop]: one per entry of [arrivals], each entry
    telling how many bytes reach the receive buffer before that cycle
    starts. *)
Fixpoint cycles (arrivals : list nat) (w : World) : option World :=
  match arrivals with
  | [] => Some w
  | k :: arrivals' =>
      match loop_ (MkWorld (frameBuf w) (rstate w) (uart_arrive k (serial w))) with
      | Some w' => cycles arrivals' w'
      | None => None
      end
  end.

(** ** Specification-side definitions *)

Definition is_byte (b : Z) : Prop := 0 ≤ b < 256.

(** The sketch's arrays have their declared sizes. *)
Definition wf_rstate (r : RState) : Prop :=
  Z.of_nat (length (r_lineBuf r)) = FRAME_W.

Definition wf_world (w : World) : Prop :=
  Z.of_nat (length (frameBuf w)) = BYTES_PER_FRAME ∧ wf_rstate (rstate w).

(** The colour the spec gives pixel [(x, y)] of frame [F]: bit
    [7 - x mod 8] of byte [x / 8] of the row that starts [y * (width / 8)]
    bytes into the frame. *)
Definition spec_colour (F : list Z) (x y : Z) : Z :=
  if Z.testbit (nth (Z.to_nat (y * (FRAME_W / 8) + x / 8)) F 0) (7 - x mod 8)
  then TFT_WHITE else TFT_BLACK.

Definition spec_row (F : list Z) (y : Z) : list Z :=
  (fun x => spec_colour F x y) <$> seqZ 0 FRAME_W.

(** The transfers one rendering of [F] adds to the display log. *)
Definition spec_ops (F : list Z) : list PushOp :=
  (fun y => MkPush 0 y FRAME_W 1 (spec_row F y)) <$> seqZ 0 FRAME_H.

(** The last scanline, which stays in [lineBuf] after a rendering. *)
Definition last_row (F : list Z) : list Z := spec_row F (FRAME_H - 1).

(** Reading a frame back from the surface: a white pixel is a set bit, a
    black one a clear bit, repacked row-major and most significant bit
    first. *)
Definition pixel_bit (c : option Z) : Z :=
  match c with
  | Some v => if v =? TFT_WHITE then 1 else 0
  | None => 0
  end.

Definition readback_byte (t : TFT) (i : Z) : Z :=
  let y := i / (FRAME_W / 8) in
  let x0 := 8 * (i mod (FRAME_W / 8)) in
  fold_left (fun acc k => 2 * acc + pixel_bit (readPixel t (x0 + k) y)) (seqZ 0 8) 0.

Definition readback (t : TFT) : list Z := readback_byte t <$> seqZ 0 BYTES_PER_FRAME.

(** ** Example inputs

    The world right after [setup]: zero-initialised buffers, nothing drawn
    by the renderer yet, nothing sent; [stale] is what already sits in the
    receive buffer and [line] what the link will deliver. *)
Definition boot_rstate : RState := MkR (replicate (Z.to_nat FRAME_W) 0) [].

Definition boot_world (stale : list Z) (line : list wire_event) : World :=
  MkWorld (replicate (Z.to_nat BYTES_PER_FRAME) 0) boot_rstate (MkSerial stale line []).

(** A frame whose bytes are all [v]. *)
Definition solid_frame (v : Z) : list Z := replicate (Z.to_nat BYTES_PER_FRAME) v.

(** What the link carries when the sender transmits the frames [Fs] back
    to back, followed by [rest]. *)
Definition frames_on_wire (Fs : list (list Z)) (rest : list wire_event) : list wire_event :=
  foldr (fun F acc => (Rx <$> F) ++ acc) rest Fs.

(** A frame as the sender should produce it. *)
Definition valid_frame (F : list Z) : Prop :=
  Z.of_nat (length F) = BYTES_PER_FRAME ∧ Forall is_byte F.

(** The number of bytes a port still has for the sketch: those in the
    receive buffer and those the link is yet to deliver. *)
Fixpoint count_bytes (w : list wire_event) : nat :=
  match w with
  | [] => O
  | Rx _ :: w' => S (count_bytes w')
  | Silence :: w' => count_bytes w'
  end.

Definition pending (s : SerialPort) : nat := (length (rx s) + count_bytes (wire s))%nat.

(** ** The order of the sketch's output

    The display log and [tx] above are kept apart, so they do not tell
    which of a transfer and a written byte came first.  The journal does:
    it is one chronological list of the sketch's output calls, extended by
    [tft.pushImage] and by [Serial.write] at the moment of the call.  The
    functions below are [row_body], [drawFrameFast], [loop_after_flush],
    [loop_] and [cycles] again, line for line, with the journal threaded
    through those two calls. *)

Inductive io_event := Pushed (o : PushOp) | Written (b : Z).

(** [tft.pushImage(x, y, w, h, data)], journalled. *)
Definition pushImage_io (x y w h : Z) (data : list Z) (tl : TFT * list io_event)
  : TFT * list io_event :=
  (pushImage x y w h data (fst tl),
   snd tl ++ [Pushed (MkPush x y w h (take (Z.to_nat (w * h)) data))]).

(** [Serial.write(b)], journalled. *)
Definition Serial_write_io (b : Z) (sl : SerialPort * list io_event)
  : SerialPort * list io_event :=
  (Serial_write b (fst sl), snd sl ++ [Written b]).

(** Lines 19-29. *)
Definition row_body_io (data : ptr) (bytesPerRow : Z) (y : Z) (rl : RState * list io_event)
  : option (RState * list io_event) :=
  let rowData := ptr_add data (y * bytesPerRow) in
  match for_ 0 FRAME_W (column_body rowData) (r_lineBuf (fst rl)) with
  | Some lineBuf =>
      let (t, log) := pushImage_io 0 y FRAME_W 1 lineBuf (r_tft (fst rl), snd rl) in
      Some (MkR lineBuf t, log)
  | None => None
  end.

(** Lines 14-31. *)
Definition drawFrameFast_io (data : ptr) (rl : RState * list io_event)
  : option (RState * list io_event) :=
  let bytesPerRow := FRAME_W / 8 in
  for_ 0 FRAME_H (row_body_io data bytesPerRow) rl.

(** Lines 55-60. *)
Definition loop_after_flush_io (wl : World * list io_event) : option (World * list io_event) :=
  let (w, log) := wl in
  match Serial_readBytes (serial w) (frameBuf w) BYTES_PER_FRAME with
  | Some (bytesRead, buf, s) =>
      if bytesRead =? BYTES_PER_FRAME then
        match drawFrameFast_io (Ptr buf 0) (rstate w, log) with
        | Some (r, log1) =>
            let (s', log2) := Serial_write_io ACK (s, log1) in
            Some (MkWorld buf r s', log2)
        | None => None
        end
      else Some (MkWorld buf (rstate w) s, log)
  | None => None
  end.

(** Lines 50-61. *)
Definition loop_io (wl : World * list io_event) : option (World * list io_event) :=
  match flush (serial (fst wl)) with
  | Some s => loop_after_flush_io (MkWorld (frameBuf (fst wl)) (rstate (fst wl)) s, snd wl)
  | None => None
  end.

Fixpoint cycles_io (arrivals : list nat) (wl : World * list io_event)
  : option (World * list io_event) :=
  match arrivals with
  | [] => Some wl
  | k :: arrivals' =>
      match loop_io (MkWorld (frameBuf (fst wl)) (rstate (fst wl))
                             (uart_arrive k (serial (fst wl))), snd wl) with
      | Some wl' => cycles_io arrivals' wl'
      | None => None
      end
  end.

(** The journal of a sketch that has rendered the frames [Fs], in that
    order, and has written one 0xAA right after each of them and nothing
    else. *)
Definition render_then_ack (F : list Z) : list io_event :=
  (Pushed <$> spec_ops F) ++ [Written 0xAA].

Definition journal (Fs : list (list Z)) : list io_event :=
  concat (render_then_ack <$> Fs).

(** * Proofs *)

(** ** Bit arithmetic of the column loop *)

Lemma land_pow2 (b m : Z) :
  0 ≤ m → Z.land b (2 ^ m) = if Z.testbit b m then 2 ^ m else 0.
Proof.
  intros Hm. apply Z.bits_inj'. intros n Hn.
  rewrite Z.land_spec, Z.pow2_bits_eqb by lia.
  destruct (Z.eqb_spec m n) as [->|Hne].
  - destruct (Z.testbit b n) eqn:E; simpl.
    + rewrite Z.pow2_bits_eqb by lia. symmetry. apply Z.eqb_refl.
    + symmetry. apply Z.bits_0.
  - rewrite andb_false_r. destruct (Z.testbit b m).
    + rewrite Z.pow2_bits_eqb by lia. symmetry. by apply Z.eqb_neq.
    + symmetry. apply Z.bits_0.
Qed.

Lemma mask_shift (x : Z) : Z.shiftr 0x80 (Z.land x 7) = 2 ^ (7 - x mod 8).
Proof.
  change 7 with (Z.ones 3) at 1. rewrite Z.land_ones by lia.
  change (2 ^ 3) with 8.
  assert (H : 0 ≤ x mod 8 < 8) by (apply Z.mod_pos_bound; lia).
  assert (Hk : x mod 8 = 0 ∨ x mod 8 = 1 ∨ x mod 8 = 2 ∨ x mod 8 = 3 ∨
               x mod 8 = 4 ∨ x mod 8 = 5 ∨ x mod 8 = 6 ∨ x mod 8 = 7) by lia.
  destruct Hk as [->|[->|[->|[->|[->|[->|[->| ->]]]]]]]; reflexivity.
Qed.

Lemma pixel_test (b x : Z) :
  negb (Z.land b (Z.shiftr 0x80 (Z.land x 7)) =? 0) = Z.testbit b (7 - x mod 8).
Proof.
  rewrite mask_shift.
  assert (H : 0 ≤ x mod 8 < 8) by (apply Z.mod_pos_bound; lia).
  rewrite land_pow2 by lia.
  destruct (Z.testbit b (7 - x mod 8)); [|reflexivity].
  assert (0 < 2 ^ (7 - x mod 8)) by (apply Z.pow_pos_nonneg; lia).
  destruct (Z.eqb_spec (2 ^ (7 - x mod 8)) 0); [lia | reflexivity].
Qed.

Lemma shiftr3_div8 (x : Z) : Z.shiftr x 3 = x / 8.
Proof. rewrite Z.shiftr_div_pow2 by lia. reflexivity. Qed.

(** ** Checked array accesses *)

Lemma load_Some (a : list Z) (i : Z) :
  0 ≤ i < Z.of_nat (length a) → load a i = Some (nth (Z.to_nat i) a 0).
Proof.
  intros [H0 H1]. unfold load.
  destruct (Z.leb_spec 0 i); [|lia]. destruct (Z.ltb_spec i (Z.of_nat (length a))); [|lia].
  simpl. destruct (nth_lookup_or_length a (Z.to_nat i) 0) as [E|E]; [exact E | lia].
Qed.

Lemma load_None (a : list Z) (i : Z) :
  ¬ (0 ≤ i < Z.of_nat (length a)) → load a i = None.
Proof.
  intros H. unfold load.
  destruct (Z.leb_spec 0 i); [|reflexivity].
  destruct (Z.ltb_spec i (Z.of_nat (length a))); [lia | reflexivity].
Qed.

Lemma store_Some (a : list Z) (i v : Z) :
  0 ≤ i < Z.of_nat (length a) → store a i v = Some (<[Z.to_nat i := v]> a).
Proof.
  intros [H0 H1]. unfold store.
  destruct (Z.leb_spec 0 i); [|lia]. destruct (Z.ltb_spec i (Z.of_nat (length a))); [|lia].
  reflexivity.
Qed.

Lemma store_None (a : list Z) (i v : Z) :
  ¬ (0 ≤ i < Z.of_nat (length a)) → store a i v = None.
Proof.
  intros H. unfold store.
  destruct (Z.leb_spec 0 i); [|reflexivity].
  destruct (Z.ltb_spec i (Z.of_nat (length a))); [lia | reflexivity].
Qed.

(** ** Counting loops: the invariant rule *)

Lemma for_loop_inv {St : Type} (P : Z → St → Prop) (body : Z → St → option St) :
  ∀ (n : nat) (i : Z) (s : St),
    P i s →
    (∀ j s0, i ≤ j < i + Z.of_nat n → P j s0 →
             ∃ s1, body j s0 = Some s1 ∧ P (j + 1) s1) →
    ∃ s', for_loop n i body s = Some s' ∧ P (i + Z.of_nat n) s'.
Proof.
  induction n as [|n IH]; intros i s Hi Hstep.
  - exists s. split; [reflexivity|]. by replace (i + Z.of_nat 0) with i by lia.
  - destruct (Hstep i s) as (s1 & Hb & H1); [lia | exact Hi |].
    simpl. rewrite Hb.
    destruct (IH (i + 1) s1 H1) as (s' & Hl & H'). 
    + intros j s0 Hj. apply Hstep. lia.
    + exists s'. split; [exact Hl|].
      by replace (i + Z.of_nat (S n)) with (i + 1 + Z.of_nat n) by lia.
Qed.

Lemma for_inv {St : Type} (P : Z → St → Prop) (body : Z → St → option St)
    (lo hi : Z) (s : St) :
  lo ≤ hi → P lo s →
  (∀ j s0, lo ≤ j < hi → P j s0 → ∃ s1, body j s0 = Some s1 ∧ P (j + 1) s1) →
  ∃ s', for_ lo hi body s = Some s' ∧ P hi s'.
Proof.
  intros Hle H0 Hstep. unfold for_.
  destruct (for_loop_inv P body (Z.to_nat (hi - lo)) lo s H0) as (s' & E & H').
  - intros j s0 Hj. apply Hstep. lia.
  - exists s'. split; [exact E|].
    replace (lo + Z.of_nat (Z.to_nat (hi - lo))) with hi in H' by lia. exact H'.
Qed.

(** ** The renderer against its functional specification *)

Lemma frame_index_bounds (x y : Z) :
  0 ≤ x < FRAME_W → 0 ≤ y < FRAME_H →
  0 ≤ y * (FRAME_W / 8) + x / 8 < BYTES_PER_FRAME.
Proof.
  unfold BYTES_PER_FRAME, FRAME_W, FRAME_H.
  change (128 / 8) with 16. change (128 * 96 / 8) with 1536.
  intros Hx Hy.
  assert (0 ≤ x / 8 < 16) by (split; [apply Z.div_pos; lia | apply Z.div_lt_upper_bound; lia]).
  lia.
Qed.

Lemma lookup_spec_row (F : list Z) (y : Z) (j : nat) :
  Z.of_nat j < FRAME_W → spec_row F y !! j = Some (spec_colour F (Z.of_nat j) y).
Proof.
  intros Hj. unfold spec_row. rewrite list_lookup_fmap, lookup_seqZ_lt by exact Hj.
  reflexivity.
Qed.

Lemma length_spec_row (F : list Z) (y : Z) : Z.of_nat (length (spec_row F y)) = FRAME_W.
Proof. unfold spec_row. rewrite length_fmap, length_seqZ. reflexivity. Qed.

Lemma column_body_step (F lb : list Z) (x y : Z) :
  Z.of_nat (length F) = BYTES_PER_FRAME →
  0 ≤ x < Z.of_nat (length lb) → 0 ≤ x < FRAME_W → 0 ≤ y < FRAME_H →
  column_body (ptr_add (Ptr F 0) (y * (FRAME_W / 8))) x lb
  = Some (<[Z.to_nat x := spec_colour F x y]> lb).
Proof.
  intros HF Hlb Hx Hy. unfold column_body, ptr_load, ptr_add. simpl.
  rewrite shiftr3_div8.
  pose proof (frame_index_bounds x y Hx Hy) as Hi.
  rewrite load_Some by lia. rewrite pixel_test.
  rewrite store_Some by exact Hlb. reflexivity.
Qed.

Lemma column_loop (F lb : list Z) (y : Z) :
  Z.of_nat (length F) = BYTES_PER_FRAME →
  Z.of_nat (length lb) = FRAME_W → 0 ≤ y < FRAME_H →
  for_ 0 FRAME_W (column_body (ptr_add (Ptr F 0) (y * (FRAME_W / 8)))) lb
  = Some (spec_row F y).
Proof.
  intros HF Hlb Hy.
  pose (P := fun (x : Z) (l : list Z) =>
               Z.of_nat (length l) = FRAME_W ∧
               ∀ j : nat, Z.of_nat j < x → l !! j = Some (spec_colour F (Z.of_nat j) y)).
  destruct (for_inv P (column_body (ptr_add (Ptr F 0) (y * (FRAME_W / 8)))) 0 FRAME_W lb)
    as (l' & E & Hlen & Hl').
  - unfold FRAME_W. lia.
  - split; [exact Hlb | intros j Hj; lia].
  - intros x l Hx [Hlen Hl].
    exists (<[Z.to_nat x := spec_colour F x y]> l). split.
    + apply column_body_step; [exact HF | lia | exact Hx | exact Hy].
    + split; [by rewrite length_insert|].
      intros j Hj. destruct (decide (j = Z.to_nat x)) as [->|Hne].
      * rewrite list_lookup_insert_eq by lia. by rewrite Z2Nat.id by lia.
      * rewrite list_lookup_insert_ne by done. apply Hl. lia.
  - rewrite E. f_equal. apply list_eq. intros j.
    destruct (decide (Z.of_nat j < FRAME_W)) as [Hj|Hj].
    + by rewrite Hl', lookup_spec_row.
    + pose proof (length_spec_row F y).
      rewrite !lookup_ge_None_2 by lia. reflexivity.
Qed.

Lemma row_body_step (F : list Z) (r : RState) (y : Z) :
  Z.of_nat (length F) = BYTES_PER_FRAME → wf_rstate r → 0 ≤ y < FRAME_H →
  row_body (Ptr F 0) (FRAME_W / 8) y r
  = Some (MkR (spec_row F y) (r_tft r ++ [MkPush 0 y FRAME_W 1 (spec_row F y)])).
Proof.
  intros HF Hr Hy. unfold row_body. rewrite column_loop by done.
  unfold pushImage. rewrite take_ge; [reflexivity|].
  pose proof (length_spec_row F y). unfold FRAME_W in *. lia.
Qed.

Lemma drawFrameFast_spec (F : list Z) (r : RState) :
  Z.of_nat (length F) = BYTES_PER_FRAME → wf_rstate r →
  drawFrameFast (Ptr F 0) r = Some (MkR (last_row F) (r_tft r ++ spec_ops F)).
Proof.
  intros HF Hr. unfold drawFrameFast.
  pose (ops := fun (y : Z) => (fun y => MkPush 0 y FRAME_W 1 (spec_row F y)) <$> seqZ 0 y).
  pose (P := fun (y : Z) (r' : RState) =>
               wf_rstate r' ∧ r_tft r' = r_tft r ++ ops y ∧
               (0 < y → r_lineBuf r' = spec_row F (y - 1))).
  destruct (for_inv P (row_body (Ptr F 0) (FRAME_W / 8)) 0 FRAME_H r)
    as (r' & E & Hwf & Ht & Hl).
  - unfold FRAME_H. lia.
  - split; [exact Hr|]. split; [|lia]. unfold ops. by rewrite seqZ_nil, app_nil_r.
  - intros y r0 Hy (Hwf0 & Ht0 & _). eexists. split.
    + apply row_body_step; done.
    + split; [apply length_spec_row|]. simpl. split.
      * rewrite Ht0. unfold ops. rewrite <- (assoc_L (++)). f_equal.
        rewrite (seqZ_app 0 y 1) by lia. rewrite fmap_app. reflexivity.
      * intros _. by replace (y + 1 - 1) with y by lia.
  - rewrite E. destruct r' as [lb t]. simpl in *. f_equal. f_equal.
    + apply Hl. unfold FRAME_H. lia.
    + exact Ht.
Qed.

(** ** Surface readback after a rendering *)

Lemma readPixel_snoc (t : TFT) (o : PushOp) (x y : Z) :
  readPixel (t ++ [o]) x y
  = match op_pixel o x y with Some c => Some c | None => readPixel t x y end.
Proof. unfold readPixel. rewrite fold_left_app. reflexivity. Qed.

Lemma op_pixel_row_hit (F : list Z) (x y : Z) :
  0 ≤ x < FRAME_W →
  op_pixel (MkPush 0 y FRAME_W 1 (spec_row F y)) x y = Some (spec_colour F x y).
Proof.
  intros Hx. unfold op_pixel. simpl.
  destruct (Z.leb_spec 0 x); [|lia]. destruct (Z.ltb_spec x (0 + FRAME_W)); [|lia].
  destruct (Z.leb_spec y y); [|lia]. destruct (Z.ltb_spec y (y + 1)); [|lia].
  simpl. replace ((y - y) * FRAME_W + (x - 0)) with x by lia.
  rewrite lookup_spec_row by lia. by rewrite Z2Nat.id by lia.
Qed.

Lemma op_pixel_row_miss (l : list Z) (x y y' : Z) :
  y ≠ y' → op_pixel (MkPush 0 y' FRAME_W 1 l) x y = None.
Proof.
  intros Hy. unfold op_pixel. simpl.
  destruct (Z.leb_spec y' y), (Z.ltb_spec y (y' + 1)); try lia;
    rewrite ?andb_false_r; reflexivity.
Qed.

Lemma readPixel_rows (F : list Z) (t : TFT) (x y : Z) (n : nat) :
  0 ≤ x < FRAME_W → 0 ≤ y < Z.of_nat n →
  readPixel (t ++ ((fun y => MkPush 0 y FRAME_W 1 (spec_row F y)) <$> seqZ 0 (Z.of_nat n))) x y
  = Some (spec_colour F x y).
Proof.
  intros Hx. induction n as [|n IH]; intros Hy; [lia|].
  rewrite seqZ_S, fmap_app, (assoc_L (++)). simpl.
  rewrite readPixel_snoc.
  destruct (decide (y = Z.of_nat n)) as [->|Hne].
  - by rewrite op_pixel_row_hit.
  - rewrite op_pixel_row_miss by done. apply IH. lia.
Qed.

Lemma readPixel_spec_ops (F : list Z) (t : TFT) (x y : Z) :
  0 ≤ x < FRAME_W → 0 ≤ y < FRAME_H →
  readPixel (t ++ spec_ops F) x y = Some (spec_colour F x y).
Proof.
  intros Hx Hy. unfold spec_ops.
  replace FRAME_H with (Z.of_nat (Z.to_nat FRAME_H)) at 1 by (unfold FRAME_H; lia).
  apply readPixel_rows; [exact Hx|]. unfold FRAME_H in *. lia.
Qed.

Lemma lookup_spec_ops (F : list Z) (y : Z) :
  0 ≤ y < FRAME_H →
  spec_ops F !! Z.to_nat y = Some (MkPush 0 y FRAME_W 1 (spec_row F y)).
Proof.
  intros Hy. unfold spec_ops. rewrite list_lookup_fmap, lookup_seqZ_lt by lia.
  simpl. by rewrite Z2Nat.id by lia.
Qed.

Lemma length_spec_ops (F : list Z) : Z.of_nat (length (spec_ops F)) = FRAME_H.
Proof. unfold spec_ops. rewrite length_fmap, length_seqZ. reflexivity. Qed.

Lemma colours_distinct : TFT_WHITE ≠ TFT_BLACK.
Proof. discriminate. Qed.

Lemma lookup_frame (F : list Z) (x y : Z) :
  Z.of_nat (length F) = BYTES_PER_FRAME → 0 ≤ x < FRAME_W → 0 ≤ y < FRAME_H →
  F !! Z.to_nat (y * (FRAME_W / 8) + x / 8)
  = Some (nth (Z.to_nat (y * (FRAME_W / 8) + x / 8)) F 0).
Proof.
  intros HF Hx Hy. pose proof (frame_index_bounds x y Hx Hy).
  destruct (nth_lookup_or_length F (Z.to_nat (y * (FRAME_W / 8) + x / 8)) 0) as [E|E];
    [exact E | lia].
Qed.

(** ** Claims about the renderer *)

(** C1: for a frame buffer of [BYTES_PER_FRAME] bytes, [drawFrameFast]
    returns, and what it added to the display is one transfer per row [y],
    at [(0, y)], [FRAME_W] wide and one row high; the colour in column [x]
    of that row, which is also the colour the surface then shows at
    [(x, y)], is white exactly when bit [7 - x mod 8] of byte [x / 8] of
    the row starting at offset [y * (FRAME_W / 8)] is set, and black
    otherwise. *)
Theorem C1_drawFrameFast_decodes_rows (F : list Z) (r : RState) :
  Z.of_nat (length F) = BYTES_PER_FRAME → wf_rstate r →
  ∃ (r' : RState) (rows : list PushOp),
    drawFrameFast (Ptr F 0) r = Some r' ∧
    r_tft r' = r_tft r ++ rows ∧
    Z.of_nat (length rows) = FRAME_H ∧
    ∀ y, 0 ≤ y < FRAME_H →
      ∃ line : list Z,
        rows !! Z.to_nat y = Some (MkPush 0 y FRAME_W 1 line) ∧
        Z.of_nat (length line) = FRAME_W ∧
        ∀ x, 0 ≤ x < FRAME_W →
          ∃ b c : Z,
            F !! Z.to_nat (y * (FRAME_W / 8) + x / 8) = Some b ∧
            line !! Z.to_nat x = Some c ∧
            readPixel (r_tft r') x y = Some c ∧
            (c = TFT_WHITE ↔ Z.testbit b (7 - x mod 8) = true) ∧
            (c = TFT_BLACK ↔ Z.testbit b (7 - x mod 8) = false).
Proof.
  intros HF Hr.
  exists (MkR (last_row F) (r_tft r ++ spec_ops F)), (spec_ops F).
  split; [by apply drawFrameFast_spec|].
  split; [reflexivity|]. split; [apply length_spec_ops|].
  intros y Hy. exists (spec_row F y).
  split; [by apply lookup_spec_ops|]. split; [apply length_spec_row|].
  intros x Hx.
  exists (nth (Z.to_nat (y * (FRAME_W / 8) + x / 8)) F 0), (spec_colour F x y).
  split; [by apply lookup_frame|].
  split; [rewrite lookup_spec_row by lia; by rewrite Z2Nat.id by lia|].
  split; [by apply readPixel_spec_ops|].
  unfold spec_colour.
  destruct (Z.testbit _ (7 - x mod 8)); split; split; intros H;
    try reflexivity; try discriminate H.
Qed.

Lemma C1_witness :
  ∃ r', drawFrameFast (Ptr (replicate (Z.to_nat 1536) 0xA5) 0)
                      (MkR (replicate (Z.to_nat 128) 0) []) = Some r' ∧
        readPixel (r_tft r') 0 0 = Some TFT_WHITE ∧
        readPixel (r_tft r') 1 0 = Some TFT_BLACK.
Proof.
  destruct (C1_drawFrameFast_decodes_rows
              (replicate (Z.to_nat 1536) 0xA5) (MkR (replicate (Z.to_nat 128) 0) []))
    as (r' & rows & E & _ & _ & H); [reflexivity | reflexivity |].
  exists r'. split; [exact E|].
  destruct (H 0) as (l0 & _ & _ & Hl0); [unfold FRAME_H; lia|].
  split.
  - destruct (Hl0 0) as (b & c & Hb & _ & Hp & Hw & _); [unfold FRAME_W; lia|].
    rewrite Hp. f_equal. apply Hw. vm_compute in Hb. by injection Hb as <-.
  - destruct (Hl0 1) as (b & c & Hb & _ & Hp & _ & Hk); [unfold FRAME_W; lia|].
    rewrite Hp. f_equal. apply Hk. vm_compute in Hb. by injection Hb as <-.
Defined.

(** ** The serial port *)

Lemma flush_loop_drains (w : list wire_event) (t : list Z) :
  ∀ (r : list Z) (fuel : nat), (length r < fuel)%nat →
    while_loop fuel (fun s => negb (Serial_available s =? 0))
               (fun s => snd (Serial_read s)) (MkSerial r w t)
    = Some (MkSerial [] w t).
Proof.
  induction r as [|b r IH]; intros fuel Hfuel.
  - destruct fuel as [|fuel]; [simpl in Hfuel; lia | reflexivity].
  - destruct fuel as [|fuel]; [simpl in Hfuel; lia |].
    cbn [while_loop]. unfold Serial_available at 1. cbn [rx length].
    destruct (Z.eqb_spec (Z.of_nat (S (length r))) 0) as [E|_]; [lia|].
    cbn [negb]. unfold Serial_read at 1. cbn [rx wire tx snd].
    apply IH. simpl in Hfuel. lia.
Qed.

Lemma flush_spec (s : SerialPort) : flush s = Some (MkSerial [] (wire s) (tx s)).
Proof. destruct s as [r w t]. unfold flush. apply flush_loop_drains. simpl. lia. Qed.

Lemma take_insert_snoc (buf : list Z) (k : nat) (b : Z) :
  (k < length buf)%nat → take (S k) (<[k := b]> buf) = take k buf ++ [b].
Proof.
  intros Hk. rewrite (take_S_r _ _ b) by (by apply list_lookup_insert_eq).
  by rewrite take_insert_ge.
Qed.

(** What one [readBytes] does on an empty receive buffer: it takes the
    bytes [got] from the head of the link and overwrites that many leading
    cells of the buffer; the cells behind them keep their old content. *)
Lemma readBytes_loop_spec (t : list Z) :
  ∀ (n k : nat) (buf : list Z) (w : list wire_event),
    (k + n ≤ length buf)%nat →
    ∃ (got : list Z) (w' : list wire_event),
      readBytes_loop n (Z.of_nat k) buf (MkSerial [] w t)
      = Some (Z.of_nat (k + length got),
              take k buf ++ got ++ drop (k + length got) buf,
              MkSerial [] w' t) ∧
      (length got ≤ n)%nat ∧
      (∃ tail, w = (Rx <$> got) ++ tail) ∧
      (length got = n → w = (Rx <$> got) ++ w') ∧
      (length got < n → w' = drop (S (length got)) w)%nat.
Proof.
  induction n as [|n IH]; intros k buf w Hlen.
  - exists [], w. simpl. rewrite Nat.add_0_r, take_drop.
    repeat split; [lia | by exists w | lia].
  - cbn [readBytes_loop]. unfold timedRead. cbn [rx wire tx].
    assert (Hstop : ∀ w', w' = drop 1 w →
              ∃ (got : list Z) (w'0 : list wire_event),
                Some (Z.of_nat k, buf, MkSerial [] w' t)
                = Some (Z.of_nat (k + length got),
                        take k buf ++ got ++ drop (k + length got) buf,
                        MkSerial [] w'0 t) ∧
                (length got ≤ S n)%nat ∧ (∃ tail, w = (Rx <$> got) ++ tail) ∧
                (length got = S n → w = (Rx <$> got) ++ w'0) ∧
                (length got < S n → w'0 = drop (S (length got)) w)%nat).
    { intros w' Hw'. exists [], w'. simpl. rewrite Nat.add_0_r, take_drop.
      repeat split; [lia | by exists w | discriminate | done]. }
    destruct w as [|[b|] w1].
    + by apply Hstop.
    + destruct (Z.ltb_spec b 0) as [Hb|Hb].
      * by apply Hstop.
      * clear Hstop. rewrite store_Some by lia. rewrite Nat2Z.id.
        replace (Z.of_nat k + 1) with (Z.of_nat (S k)) by lia.
        destruct (IH (S k) (<[k := b]> buf) w1) as (got & w' & E & Hle & [tail Ht] & Hfull & Hshort).
        { rewrite length_insert. lia. }
        exists (b :: got), w'. rewrite E. cbn [length].
        replace (k + S (length got))%nat with (S k + length got)%nat by lia.
        rewrite take_insert_snoc by lia.
        rewrite drop_insert_lt by lia.
        rewrite <- (assoc_L (++)). cbn [app fmap list_fmap].
        repeat split.
        -- lia.
        -- exists tail. by rewrite Ht.
        -- intros Hg. rewrite Hfull by lia. reflexivity.
        -- intros Hg. rewrite Hshort by lia. reflexivity.
    + by apply Hstop.
Qed.

Lemma Serial_readBytes_spec (buf : list Z) (w : list wire_event) (t : list Z) :
  Z.of_nat (length buf) = BYTES_PER_FRAME →
  ∃ (got : list Z) (w' : list wire_event),
    Serial_readBytes (MkSerial [] w t) buf BYTES_PER_FRAME
    = Some (Z.of_nat (length got), got ++ drop (length got) buf, MkSerial [] w' t) ∧
    Z.of_nat (length got) ≤ BYTES_PER_FRAME ∧
    (∃ tail, w = (Rx <$> got) ++ tail) ∧
    (Z.of_nat (length got) = BYTES_PER_FRAME → w = (Rx <$> got) ++ w') ∧
    (Z.of_nat (length got) < BYTES_PER_FRAME → w' = drop (S (length got)) w).
Proof.
  intros Hbuf. unfold Serial_readBytes.
  destruct (readBytes_loop_spec t (Z.to_nat BYTES_PER_FRAME) 0 buf w)
    as (got & w' & E & Hle & Ht & Hfull & Hshort); [lia|].
  exists got, w'. change (Z.of_nat 0) with 0 in E. rewrite E. simpl.
  repeat split; [lia | exact Ht | intros; apply Hfull; lia | intros; apply Hshort; lia].
Qed.

(** Reading a run of bytes that the link delivers without a pause. *)
Lemma readBytes_loop_run (rest : list wire_event) (t : list Z) :
  ∀ (pre : list Z) (n k : nat) (buf : list Z),
    Forall (fun b => 0 ≤ b) pre →
    (length pre ≤ n)%nat → (k + n ≤ length buf)%nat →
    readBytes_loop n (Z.of_nat k) buf (MkSerial [] ((Rx <$> pre) ++ rest) t)
    = readBytes_loop (n - length pre) (Z.of_nat (k + length pre))
        (take k buf ++ pre ++ drop (k + length pre) buf) (MkSerial [] rest t).
Proof.
  induction pre as [|b pre IH]; intros n k buf Hpos Hn Hbuf.
  - simpl. by rewrite Nat.sub_0_r, Nat.add_0_r, take_drop.
  - destruct n as [|n]; [simpl in Hn; lia|].
    apply Forall_cons_1 in Hpos as [Hb Hpos].
    cbn [readBytes_loop fmap list_fmap app]. unfold timedRead. cbn [rx wire tx].
    destruct (Z.ltb_spec b 0) as [?|_]; [lia|].
    rewrite store_Some by lia. rewrite Nat2Z.id.
    replace (Z.of_nat k + 1) with (Z.of_nat (S k)) by lia.
    rewrite IH; [| exact Hpos | simpl in Hn; lia | rewrite length_insert; lia].
    cbn [length]. rewrite take_insert_snoc by lia. rewrite drop_insert_lt by lia.
    replace (k + S (length pre))%nat with (S k + length pre)%nat by lia.
    rewrite <- (assoc_L (++)). reflexivity.
Qed.

Lemma is_byte_nonneg (F : list Z) : Forall is_byte F → Forall (fun b => 0 ≤ b) F.
Proof. apply Forall_impl. intros b [H _]. exact H. Qed.

Lemma Serial_readBytes_full (F buf : list Z) (rest : list wire_event) (t : list Z) :
  Z.of_nat (length buf) = BYTES_PER_FRAME →
  Z.of_nat (length F) = BYTES_PER_FRAME → Forall is_byte F →
  Serial_readBytes (MkSerial [] ((Rx <$> F) ++ rest) t) buf BYTES_PER_FRAME
  = Some (BYTES_PER_FRAME, F, MkSerial [] rest t).
Proof.
  intros Hbuf HF Hbytes. unfold Serial_readBytes.
  change 0 with (Z.of_nat 0) at 1.
  rewrite readBytes_loop_run; [| by apply is_byte_nonneg | lia | lia].
  replace (Z.to_nat BYTES_PER_FRAME - length F)%nat with 0%nat by lia.
  simpl. rewrite drop_ge by lia. rewrite app_nil_r. do 3 f_equal. lia.
Qed.

Lemma Serial_readBytes_short (pre buf : list Z) (rest : list wire_event) (t : list Z) :
  Z.of_nat (length buf) = BYTES_PER_FRAME →
  Z.of_nat (length pre) < BYTES_PER_FRAME → Forall is_byte pre →
  Serial_readBytes (MkSerial [] ((Rx <$> pre) ++ Silence :: rest) t) buf BYTES_PER_FRAME
  = Some (Z.of_nat (length pre), pre ++ drop (length pre) buf, MkSerial [] rest t).
Proof.
  intros Hbuf Hpre Hbytes. unfold Serial_readBytes.
  change 0 with (Z.of_nat 0) at 1.
  rewrite readBytes_loop_run; [| by apply is_byte_nonneg | lia | lia].
  destruct (Z.to_nat BYTES_PER_FRAME - length pre)%nat as [|m] eqn:E; [lia|].
  reflexivity.
Qed.

(** ** One cycle of [loop] *)

Lemma loop_unfold (w : World) :
  loop_ w = loop_after_flush
              (MkWorld (frameBuf w) (rstate w) (MkSerial [] (wire (serial w)) (tx (serial w)))).
Proof. unfold loop_. by rewrite flush_spec. Qed.

Lemma loop_cases (w : World) :
  wf_world w →
  ∃ (got : list Z) (w' : list wire_event),
    Serial_readBytes (MkSerial [] (wire (serial w)) (tx (serial w))) (frameBuf w)
                     BYTES_PER_FRAME
    = Some (Z.of_nat (length got), got ++ drop (length got) (frameBuf w),
            MkSerial [] w' (tx (serial w))) ∧
    (∃ tail, wire (serial w) = (Rx <$> got) ++ tail) ∧
    ((Z.of_nat (length got) = BYTES_PER_FRAME ∧
      wire (serial w) = (Rx <$> got) ++ w' ∧
      got ++ drop (length got) (frameBuf w) = got ∧
      drawFrameFast (Ptr got 0) (rstate w)
      = Some (MkR (last_row got) (r_tft (rstate w) ++ spec_ops got)) ∧
      loop_ w = Some (MkWorld got (MkR (last_row got) (r_tft (rstate w) ++ spec_ops got))
                              (MkSerial [] w' (tx (serial w) ++ [ACK]))))
     ∨
     (Z.of_nat (length got) < BYTES_PER_FRAME ∧
      w' = drop (S (length got)) (wire (serial w)) ∧
      loop_ w = Some (MkWorld (got ++ drop (length got) (frameBuf w)) (rstate w)
                              (MkSerial [] w' (tx (serial w)))))).
Proof.
  intros [Hbuf Hr].
  destruct (Serial_readBytes_spec (frameBuf w) (wire (serial w)) (tx (serial w)) Hbuf)
    as (got & w' & E & Hle & Ht & Hfull & Hshort).
  exists got, w'. split; [exact E|]. split; [exact Ht|].
  rewrite loop_unfold. unfold loop_after_flush. cbn [serial frameBuf rstate]. rewrite E.
  destruct (Z.eqb_spec (Z.of_nat (length got)) BYTES_PER_FRAME) as [Heq|Hne].
  - left. assert (Hd : got ++ drop (length got) (frameBuf w) = got).
    { rewrite drop_ge by lia. apply app_nil_r. }
    rewrite Hd. rewrite drawFrameFast_spec by done.
    split; [exact Heq|]. split; [by apply Hfull|]. done.
  - right. split; [lia|]. split; [apply Hshort; lia | reflexivity].
Qed.

Lemma loop_preserves_wf (w w' : World) : wf_world w → loop_ w = Some w' → wf_world w'.
Proof.
  intros Hw E. destruct (loop_cases w Hw) as (got & wr & _ & _ & [H|H]).
  - destruct H as (Hlen & _ & _ & _ & El). rewrite El in E. injection E as <-.
    split; [exact Hlen | apply length_spec_row].
  - destruct H as (Hlen & _ & El). rewrite El in E. injection E as <-.
    destruct Hw as [Hbuf Hr]. split; [|exact Hr]. cbn [frameBuf].
    rewrite length_app, length_drop. lia.
Qed.

Lemma loop_full_frame (w : World) (F : list Z) (rest : list wire_event) :
  wf_world w → Z.of_nat (length F) = BYTES_PER_FRAME → Forall is_byte F →
  wire (serial w) = (Rx <$> F) ++ rest →
  loop_ w = Some (MkWorld F (MkR (last_row F) (r_tft (rstate w) ++ spec_ops F))
                          (MkSerial [] rest (tx (serial w) ++ [ACK]))).
Proof.
  intros [Hbuf Hr] HF Hbytes Hw. rewrite loop_unfold. unfold loop_after_flush.
  cbn [serial frameBuf rstate]. rewrite Hw, Serial_readBytes_full by done.
  rewrite Z.eqb_refl. by rewrite drawFrameFast_spec.
Qed.

(** ** Reading a rendered frame back *)

Lemma byte_of_bits (b : Z) :
  is_byte b →
  fold_left (fun acc k => 2 * acc + Z.b2z (Z.testbit b (7 - k))) (seqZ 0 8) 0 = b.
Proof.
  intros Hb.
  assert (Hall : forallb (fun b => fold_left (fun acc k => 2 * acc + Z.b2z (Z.testbit b (7 - k)))
                                             (seqZ 0 8) 0 =? b) (seqZ 0 256) = true)
    by (vm_compute; reflexivity).
  rewrite forallb_forall in Hall. apply Z.eqb_eq, Hall.
  apply list_elem_of_In, elem_of_seqZ. unfold is_byte in Hb. lia.
Qed.

Lemma pixel_bit_colour (F : list Z) (x y : Z) :
  pixel_bit (Some (spec_colour F x y))
  = Z.b2z (Z.testbit (nth (Z.to_nat (y * (FRAME_W / 8) + x / 8)) F 0) (7 - x mod 8)).
Proof. unfold spec_colour. by destruct (Z.testbit _ _). Qed.

Lemma readback_pixel (F : list Z) (t : TFT) (i k : Z) :
  0 ≤ i < BYTES_PER_FRAME → 0 ≤ k < 8 →
  pixel_bit (readPixel (t ++ spec_ops F) (8 * (i mod (FRAME_W / 8)) + k) (i / (FRAME_W / 8)))
  = Z.b2z (Z.testbit (nth (Z.to_nat i) F 0) (7 - k)).
Proof.
  unfold BYTES_PER_FRAME, FRAME_W, FRAME_H.
  change (128 / 8) with 16. change (128 * 96 / 8) with 1536. intros Hi Hk.
  assert (Hm : 0 ≤ i mod 16 < 16) by (apply Z.mod_pos_bound; lia).
  assert (Hq : 0 ≤ i / 16 < 96)
    by (split; [apply Z.div_pos; lia | apply Z.div_lt_upper_bound; lia]).
  rewrite readPixel_spec_ops by (unfold FRAME_W, FRAME_H; lia).
  rewrite pixel_bit_colour. unfold FRAME_W. change (128 / 8) with 16.
  assert (Hdiv : (8 * (i mod 16) + k) / 8 = i mod 16).
  { rewrite Z.mul_comm, Z.div_add_l by lia. rewrite Z.div_small by lia. lia. }
  assert (Hmod : (8 * (i mod 16) + k) mod 8 = k).
  { rewrite Z.add_comm, Z.mul_comm, Z.mod_add by lia. apply Z.mod_small. lia. }
  rewrite Hdiv, Hmod.
  replace (i / 16 * 16 + i mod 16) with i; [reflexivity|].
  rewrite (Z.div_mod i 16) at 1 by lia. lia.
Qed.

Lemma readback_byte_spec (F : list Z) (t : TFT) (i : Z) :
  0 ≤ i < BYTES_PER_FRAME → is_byte (nth (Z.to_nat i) F 0) →
  readback_byte (t ++ spec_ops F) i = nth (Z.to_nat i) F 0.
Proof.
  intros Hi Hb. etrans; [|exact (byte_of_bits _ Hb)]. unfold readback_byte.
  replace (seqZ 0 8) with [0; 1; 2; 3; 4; 5; 6; 7] by reflexivity.
  cbn [fold_left]. rewrite !readback_pixel by (exact Hi || lia). reflexivity.
Qed.

Lemma readback_spec_ops (F : list Z) (t : TFT) :
  Z.of_nat (length F) = BYTES_PER_FRAME → Forall is_byte F →
  readback (t ++ spec_ops F) = F.
Proof.
  intros HF Hbytes. apply list_eq. intros i. unfold readback.
  rewrite list_lookup_fmap.
  destruct (decide (Z.of_nat i < BYTES_PER_FRAME)) as [Hi|Hi].
  - rewrite lookup_seqZ_lt by exact Hi. simpl.
    destruct (nth_lookup_or_length F i 0) as [E|E]; [|lia].
    rewrite E. f_equal. rewrite <- (Nat2Z.id i) at 2.
    apply readback_byte_spec; [lia|]. rewrite Nat2Z.id.
    by apply (Forall_lookup_1 _ _ _ _ Hbytes E).
  - rewrite lookup_seqZ_ge by lia. simpl. symmetry. apply lookup_ge_None_2. lia.
Qed.

(** C6: rendering a valid frame and reading the surface back (white to a
    set bit, black to a clear bit, packed row-major and most significant
    bit first) gives the frame again. *)
Theorem C6_render_readback_roundtrip (F : list Z) (r : RState) :
  Z.of_nat (length F) = BYTES_PER_FRAME → Forall is_byte F → wf_rstate r →
  ∃ r', drawFrameFast (Ptr F 0) r = Some r' ∧ readback (r_tft r') = F.
Proof.
  intros HF Hbytes Hr. eexists. split; [by apply drawFrameFast_spec|].
  by apply readback_spec_ops.
Qed.

Lemma C6_witness :
  ∃ r', drawFrameFast (Ptr (solid_frame 0xC3) 0) boot_rstate = Some r' ∧
        readback (r_tft r') = solid_frame 0xC3.
Proof.
  apply (C6_render_readback_roundtrip (solid_frame 0xC3) boot_rstate).
  - reflexivity.
  - apply Forall_replicate. unfold is_byte. lia.
  - reflexivity.
Defined.

(** The embedding runs: the code and the specification-side functions
    agree on a concrete frame, from the boot state. *)
Example drawFrameFast_runs :
  drawFrameFast (Ptr (solid_frame 0xC3) 0) boot_rstate
  = Some (MkR (last_row (solid_frame 0xC3)) (spec_ops (solid_frame 0xC3))).
Proof. vm_compute. reflexivity. Qed.

Example readback_runs :
  (r ← drawFrameFast (Ptr (solid_frame 0xC3) 0) boot_rstate; Some (readback (r_tft r)))
  = Some (solid_frame 0xC3).
Proof. vm_compute. reflexivity. Qed.

(** ** Claims about the receive-render loop *)

Lemma app_neq_self {A : Type} (l k : list A) : k ≠ [] → l ++ k ≠ l.
Proof.
  intros Hk E. apply (f_equal length) in E. rewrite length_app in E.
  destruct k; [done | simpl in E; lia].
Qed.

Lemma spec_ops_nonempty (F : list Z) : spec_ops F ≠ [].
Proof.
  intros E. pose proof (length_spec_ops F) as H. rewrite E in H.
  unfold FRAME_H in H. simpl in H. lia.
Qed.

Lemma wf_boot_world (stale : list Z) (line : list wire_event) :
  wf_world (boot_world stale line).
Proof. split; reflexivity. Qed.

Lemma solid_frame_length (v : Z) : Z.of_nat (length (solid_frame v)) = BYTES_PER_FRAME.
Proof. unfold solid_frame. rewrite length_replicate. reflexivity. Qed.

Lemma solid_frame_bytes (v : Z) : is_byte v → Forall is_byte (solid_frame v).
Proof. intros Hv. by apply Forall_replicate. Qed.

(** C2: in every cycle the frame is rendered and acknowledged if and only
    if [readBytes] returned exactly [BYTES_PER_FRAME]; after any other
    count the cycle ends with the display and the outbound channel
    untouched.  In particular a run of fewer than [BYTES_PER_FRAME] bytes
    followed by a silence is such a short read. *)
Theorem C2_render_and_ack_iff_full_read (w : World) :
  wf_world w →
  ∃ (s : SerialPort) (bytesRead : Z) (buf : list Z) (s' : SerialPort) (w' : World),
    flush (serial w) = Some s ∧
    Serial_readBytes s (frameBuf w) BYTES_PER_FRAME = Some (bytesRead, buf, s') ∧
    loop_ w = Some w' ∧
    (bytesRead = BYTES_PER_FRAME →
       drawFrameFast (Ptr buf 0) (rstate w) = Some (rstate w') ∧
       r_tft (rstate w') = r_tft (rstate w) ++ spec_ops buf ∧
       tx (serial w') = tx (serial w) ++ [ACK]) ∧
    (bytesRead ≠ BYTES_PER_FRAME →
       rstate w' = rstate w ∧ tx (serial w') = tx (serial w)) ∧
    (r_tft (rstate w') ≠ r_tft (rstate w) ↔ bytesRead = BYTES_PER_FRAME) ∧
    (tx (serial w') ≠ tx (serial w) ↔ bytesRead = BYTES_PER_FRAME) ∧
    (∀ pre rest, wire (serial w) = (Rx <$> pre) ++ Silence :: rest →
                 Forall is_byte pre → Z.of_nat (length pre) < BYTES_PER_FRAME →
                 bytesRead = Z.of_nat (length pre) ∧ bytesRead ≠ BYTES_PER_FRAME).
Proof.
  intros Hw. destruct (loop_cases w Hw) as (got & wr & E & _ & Hcase).
  exists (MkSerial [] (wire (serial w)) (tx (serial w))), (Z.of_nat (length got)),
         (got ++ drop (length got) (frameBuf w)), (MkSerial [] wr (tx (serial w))).
  assert (Hshortrun : ∀ pre rest, wire (serial w) = (Rx <$> pre) ++ Silence :: rest →
                 Forall is_byte pre → Z.of_nat (length pre) < BYTES_PER_FRAME →
                 Z.of_nat (length got) = Z.of_nat (length pre) ∧
                 Z.of_nat (length got) ≠ BYTES_PER_FRAME).
  { intros pre rest Hwire Hb Hlt. rewrite Hwire in E.
    rewrite Serial_readBytes_short in E by (done || apply Hw).
    injection E as E1 _ _. lia. }
  destruct Hcase as [(Hlen & _ & Hd & Hdraw & El)|(Hlen & _ & El)]; eexists;
    (split; [apply flush_spec|]); (split; [exact E|]); (split; [exact El|]); cbn [rstate serial r_tft tx].
  - rewrite Hd. split; [done|]. split; [lia|].
    split; [split; [done | intros _; apply app_neq_self, spec_ops_nonempty]|].
    split; [split; [done | intros _; by apply app_neq_self]|]. exact Hshortrun.
  - split; [lia|]. split; [done|].
    split; [split; [done | lia]|]. split; [split; [done | lia]|]. exact Hshortrun.
Qed.

Lemma C2_witness :
  ∃ w', loop_ (boot_world [7] ((Rx <$> [1; 2; 3]) ++ [Silence])) = Some w' ∧
        rstate w' = boot_rstate ∧ tx (serial w') = [].
Proof.
  destruct (C2_render_and_ack_iff_full_read (boot_world [7] ((Rx <$> [1; 2; 3]) ++ [Silence])))
    as (s & n & buf & s' & w' & _ & _ & El & _ & Hshort & _ & _ & Hrun);
    [split; reflexivity|].
  exists w'. split; [exact El|]. apply Hshort.
  apply (Hrun [1; 2; 3] []); [reflexivity | | reflexivity].
  repeat constructor; unfold is_byte; lia.
Defined.

(** What a cycle leaves behind: either a rendering of the buffer together
    with one acknowledgement, or neither. *)
Lemma loop_outcome (w : World) :
  wf_world w →
  ∃ w', loop_ w = Some w' ∧ wf_world w' ∧
        ((r_tft (rstate w') = r_tft (rstate w) ++ spec_ops (frameBuf w') ∧
          tx (serial w') = tx (serial w) ++ [ACK])
         ∨ (rstate w' = rstate w ∧ tx (serial w') = tx (serial w))).
Proof.
  intros Hw. destruct (loop_cases w Hw) as (got & wr & _ & _ & Hcase).
  destruct Hcase as [(_ & _ & _ & _ & El)|(_ & _ & El)];
    eexists; (split; [exact El|]); (split; [by eapply loop_preserves_wf|]).
  - left. done.
  - right. done.
Qed.

Lemma uart_arrive_tx (k : nat) (s : SerialPort) : tx (uart_arrive k s) = tx s.
Proof.
  revert s. induction k as [|k IH]; intros s; [reflexivity|].
  cbn [uart_arrive]. destruct (wire s) as [|[b|] w]; [reflexivity | | reflexivity].
  by rewrite IH.
Qed.

(** The journalled renderer adds the frame's transfers to the journal, in
    row order, and otherwise does what [drawFrameFast] does. *)
Lemma row_body_io_step (F : list Z) (r : RState) (log : list io_event) (y : Z) :
  Z.of_nat (length F) = BYTES_PER_FRAME → wf_rstate r → 0 ≤ y < FRAME_H →
  row_body_io (Ptr F 0) (FRAME_W / 8) y (r, log)
  = Some (MkR (spec_row F y) (r_tft r ++ [MkPush 0 y FRAME_W 1 (spec_row F y)]),
          log ++ [Pushed (MkPush 0 y FRAME_W 1 (spec_row F y))]).
Proof.
  intros HF Hr Hy. unfold row_body_io. cbn [fst snd]. rewrite column_loop by done.
  unfold pushImage_io, pushImage. cbn [fst snd].
  rewrite take_ge; [reflexivity|].
  pose proof (length_spec_row F y). unfold FRAME_W in *. lia.
Qed.

Lemma drawFrameFast_io_spec (F : list Z) (r : RState) (log : list io_event) :
  Z.of_nat (length F) = BYTES_PER_FRAME → wf_rstate r →
  drawFrameFast_io (Ptr F 0) (r, log)
  = Some (MkR (last_row F) (r_tft r ++ spec_ops F), log ++ (Pushed <$> spec_ops F)).
Proof.
  intros HF Hr. unfold drawFrameFast_io.
  pose (ops := fun (y : Z) => (fun y => MkPush 0 y FRAME_W 1 (spec_row F y)) <$> seqZ 0 y).
  pose (P := fun (y : Z) (rl : RState * list io_event) =>
               wf_rstate (fst rl) ∧ r_tft (fst rl) = r_tft r ++ ops y ∧
               snd rl = log ++ (Pushed <$> ops y) ∧
               (0 < y → r_lineBuf (fst rl) = spec_row F (y - 1))).
  destruct (for_inv P (row_body_io (Ptr F 0) (FRAME_W / 8)) 0 FRAME_H (r, log))
    as ([r' log'] & E & Hwf & Ht & Hl & Hb).
  - unfold FRAME_H. lia.
  - split; [exact Hr|]. unfold ops. rewrite seqZ_nil by lia. cbn [fst snd fmap list_fmap].
    rewrite !app_nil_r. split; [reflexivity|]. split; [reflexivity | lia].
  - intros y [r0 l0] Hy (Hwf0 & Ht0 & Hl0 & _). cbn [fst snd] in *. eexists. split.
    + apply row_body_io_step; done.
    + cbn [fst snd r_tft r_lineBuf].
      assert (Hops : ops (y + 1) = ops y ++ [MkPush 0 y FRAME_W 1 (spec_row F y)]).
      { unfold ops. rewrite (seqZ_app 0 y 1) by lia. by rewrite fmap_app. }
      split; [apply length_spec_row|].
      split; [by rewrite Ht0, Hops, <- (assoc_L (++))|].
      split; [by rewrite Hl0, Hops, fmap_app, <- (assoc_L (++))|].
      intros _. by replace (y + 1 - 1) with y by lia.
  - rewrite E. cbn [fst snd] in *. destruct r' as [lb t]. cbn [r_tft r_lineBuf] in *.
    subst t log'. rewrite Hb by (unfold FRAME_H; lia). reflexivity.
Qed.

(** One journalled cycle, next to the plain one: a complete read appends
    the transfers of the buffer and then the acknowledgement, any other
    read appends nothing. *)
Lemma loop_io_cases (w : World) (log : list io_event) :
  wf_world w →
  ∃ (bytesRead : Z) (buf : list Z) (s' : SerialPort) (w' : World),
    Serial_readBytes (MkSerial [] (wire (serial w)) (tx (serial w))) (frameBuf w)
                     BYTES_PER_FRAME = Some (bytesRead, buf, s') ∧
    loop_ w = Some w' ∧ wf_world w' ∧
    ((bytesRead = BYTES_PER_FRAME ∧
      loop_io (w, log) = Some (w', log ++ render_then_ack buf) ∧
      r_tft (rstate w') = r_tft (rstate w) ++ spec_ops buf ∧
      tx (serial w') = tx (serial w) ++ [ACK])
     ∨
     (bytesRead ≠ BYTES_PER_FRAME ∧
      loop_io (w, log) = Some (w', log) ∧
      rstate w' = rstate w ∧ tx (serial w') = tx (serial w))).
Proof.
  intros Hw. destruct (loop_cases w Hw) as (got & wr & E & _ & Hcase).
  destruct Hcase as [(Hlen & _ & Hd & _ & El)|(Hlen & _ & El)];
    do 3 eexists; eexists; (split; [exact E|]); (split; [exact El|]);
    (split; [by eapply loop_preserves_wf|]).
  - left. split; [exact Hlen|]. rewrite Hd. split; [|done].
    unfold loop_io. cbn [fst snd]. rewrite flush_spec. unfold loop_after_flush_io.
    cbn [serial frameBuf rstate]. rewrite E, Hd, Hlen, Z.eqb_refl.
    rewrite drawFrameFast_io_spec by (exact Hlen || apply Hw).
    unfold Serial_write_io, render_then_ack. cbn [fst snd].
    by rewrite <- (assoc_L (++)).
  - right. split; [lia|]. split; [|done].
    unfold loop_io. cbn [fst snd]. rewrite flush_spec. unfold loop_after_flush_io.
    cbn [serial frameBuf rstate]. rewrite E.
    destruct (Z.eqb_spec (Z.of_nat (length got)) BYTES_PER_FRAME); [lia | reflexivity].
Qed.

Lemma journal_cons (F : list Z) (Fs : list (list Z)) :
  journal (F :: Fs) = render_then_ack F ++ journal Fs.
Proof. reflexivity. Qed.

Lemma cycles_io_spec (arrivals : list nat) :
  ∀ (w : World) (log : list io_event),
    wf_world w →
    ∃ (w' : World) (frames : list (list Z)),
      cycles_io arrivals (w, log) = Some (w', log ++ journal frames) ∧
      cycles arrivals w = Some w' ∧ wf_world w' ∧
      (length frames ≤ length arrivals)%nat ∧
      tx (serial w') = tx (serial w) ++ replicate (length frames) 0xAA ∧
      r_tft (rstate w') = r_tft (rstate w) ++ concat (spec_ops <$> frames).
Proof.
  induction arrivals as [|a arrivals IH]; intros w log Hw.
  - exists w, []. cbn [cycles_io cycles journal fmap list_fmap concat length replicate].
    rewrite !app_nil_r. do 2 (split; [reflexivity|]). split; [exact Hw|].
    split; [lia | done].
  - destruct (loop_io_cases (MkWorld (frameBuf w) (rstate w) (uart_arrive a (serial w))) log)
      as (n & buf & s' & w1 & _ & El & Hw1 & Hc); [exact Hw|].
    cbn [rstate serial] in Hc. rewrite uart_arrive_tx in Hc.
    cbn [cycles_io cycles fst snd]. rewrite El.
    destruct Hc as [(_ & Eio & Ht1 & Hx1)|(_ & Eio & Hr1 & Hx1)]; rewrite Eio.
    + destruct (IH w1 (log ++ render_then_ack buf) Hw1)
        as (w' & frames & Ec & Ep & Hw' & Hn & Htx & Ht).
      exists w', (buf :: frames). rewrite journal_cons, (assoc_L (++)).
      split; [exact Ec|]. split; [exact Ep|]. split; [exact Hw'|].
      split; [cbn [length]; lia|].
      split; [rewrite Htx, Hx1, <- (assoc_L (++)); reflexivity|].
      rewrite Ht, Ht1. cbn [fmap list_fmap concat]. by rewrite <- (assoc_L (++)).
    + destruct (IH w1 log Hw1) as (w' & frames & Ec & Ep & Hw' & Hn & Htx & Ht).
      exists w', frames. split; [exact Ec|]. split; [exact Ep|]. split; [exact Hw'|].
      split; [cbn [length]; lia|].
      split; [by rewrite Htx, Hx1 | by rewrite Ht, Hr1].
Qed.

(** C3: the journal lists the sketch's output calls in the order they were
    made.  Over any number of cycles, and whatever reaches the receive
    buffer between them, the journal is a sequence of blocks, each block
    the [FRAME_H] transfers of one rendering followed at once by a single
    written byte 0xAA: no byte is written that does not close a rendering,
    and no rendering goes without its byte.  The display log and [tx] of
    the plain run are the two halves of that journal.  And the cycle that
    comes next extends the journal by exactly such a block, for the buffer
    just read, if [readBytes] returned [BYTES_PER_FRAME], and by nothing
    otherwise. *)
Theorem C3_one_ack_per_render_nothing_else (arrivals : list nat) (w : World) :
  wf_world w →
  ∃ (w' : World) (frames : list (list Z)),
    cycles_io arrivals (w, []) = Some (w', journal frames) ∧
    cycles arrivals w = Some w' ∧
    (length frames ≤ length arrivals)%nat ∧
    tx (serial w') = tx (serial w) ++ replicate (length frames) 0xAA ∧
    r_tft (rstate w') = r_tft (rstate w) ++ concat (spec_ops <$> frames) ∧
    ∃ (s : SerialPort) (bytesRead : Z) (buf : list Z) (s' : SerialPort) (w'' : World),
      flush (serial w') = Some s ∧
      Serial_readBytes s (frameBuf w') BYTES_PER_FRAME = Some (bytesRead, buf, s') ∧
      loop_ w' = Some w'' ∧
      loop_io (w', journal frames)
      = Some (w'', journal frames ++
                     (if bytesRead =? BYTES_PER_FRAME
                      then (Pushed <$> spec_ops buf) ++ [Written 0xAA]
                      else [])).
Proof.
  intros Hw.
  destruct (cycles_io_spec arrivals w [] Hw)
    as (w' & frames & Ec & Ep & Hw' & Hn & Htx & Ht).
  exists w', frames. split; [exact Ec|]. split; [exact Ep|]. split; [exact Hn|].
  split; [exact Htx|]. split; [exact Ht|].
  destruct (loop_io_cases w' (journal frames) Hw') as (n & buf & s' & w'' & E & El & _ & Hc).
  exists (MkSerial [] (wire (serial w')) (tx (serial w'))), n, buf, s', w''.
  split; [apply flush_spec|]. split; [exact E|]. split; [exact El|].
  destruct Hc as [(Hfull & Eio & _)|(Hshort & Eio & _)]; rewrite Eio.
  - rewrite Hfull, Z.eqb_refl. reflexivity.
  - destruct (Z.eqb_spec n BYTES_PER_FRAME); [done | by rewrite app_nil_r].
Qed.

Lemma C3_witness :
  ∃ w' F,
    cycles_io [0; 2; 0]%nat
              (boot_world [] ((Rx <$> solid_frame 0x3C) ++ [Rx 1; Rx 2; Rx 3; Silence]), [])
    = Some (w', journal [F]) ∧
    tx (serial w') = [0xAA].
Proof.
  destruct (C3_one_ack_per_render_nothing_else [0; 2; 0]%nat
              (boot_world [] ((Rx <$> solid_frame 0x3C) ++ [Rx 1; Rx 2; Rx 3; Silence])))
    as (w' & frames & Ec & Ep & _ & Htx & _); [split; reflexivity|].
  assert (Hrun : tx (serial w') = [0xAA]).
  { assert (Hc : option_map (fun v => tx (serial v))
                   (cycles [0; 2; 0]%nat
                      (boot_world [] ((Rx <$> solid_frame 0x3C) ++ [Rx 1; Rx 2; Rx 3; Silence])))
                 = Some [0xAA]) by (vm_compute; reflexivity).
    rewrite Ep in Hc. cbn [option_map] in Hc. by injection Hc. }
  rewrite Hrun in Htx. cbn [boot_world serial tx app] in Htx.
  destruct frames as [|F [|F2 frames]]; cbn [length replicate] in Htx; try discriminate Htx.
  exists w', F. split; [exact Ec | exact Hrun].
Defined.

(** C4: every cycle, whatever happened before it, starts by emptying the
    receive buffer: the flush returns with nothing available and with the
    link and the outbound channel untouched, the read attempt runs on that
    emptied port, and the cycle's outcome does not depend on the bytes that
    were buffered. *)
Theorem C4_flush_before_every_read (w : World) :
  ∃ s : SerialPort,
    flush (serial w) = Some s ∧
    Serial_available s = 0 ∧ rx s = [] ∧
    wire s = wire (serial w) ∧ tx s = tx (serial w) ∧
    loop_ w = loop_after_flush (MkWorld (frameBuf w) (rstate w) s) ∧
    ∀ stale : list Z,
      loop_ (MkWorld (frameBuf w) (rstate w) (MkSerial stale (wire (serial w)) (tx (serial w))))
      = loop_ w.
Proof.
  exists (MkSerial [] (wire (serial w)) (tx (serial w))).
  split; [apply flush_spec|]. do 4 (split; [reflexivity|]).
  split; [apply loop_unfold|]. intros stale. by rewrite !loop_unfold.
Qed.

(** C5: with garbage sitting in the receive buffer and a clean run of
    [BYTES_PER_FRAME] bytes coming over the link, the very next cycle
    discards the garbage, receives exactly the clean frame, renders it and
    acknowledges it. *)
Theorem C5_resync_after_buffered_garbage
    (w : World) (garbage F : list Z) (rest : list wire_event) :
  wf_world w →
  Z.of_nat (length F) = BYTES_PER_FRAME → Forall is_byte F →
  rx (serial w) = garbage → wire (serial w) = (Rx <$> F) ++ rest →
  ∃ w', loop_ w = Some w' ∧
        frameBuf w' = F ∧
        drawFrameFast (Ptr F 0) (rstate w) = Some (rstate w') ∧
        r_tft (rstate w') = r_tft (rstate w) ++ spec_ops F ∧
        (∀ x y, 0 ≤ x < FRAME_W → 0 ≤ y < FRAME_H →
                readPixel (r_tft (rstate w')) x y = Some (spec_colour F x y)) ∧
        readback (r_tft (rstate w')) = F ∧
        tx (serial w') = tx (serial w) ++ [ACK] ∧
        rx (serial w') = [] ∧ wire (serial w') = rest.
Proof.
  intros Hw HF Hbytes _ Hwire. eexists.
  rewrite (loop_full_frame w F rest) by done.
  split; [reflexivity|]. cbn [frameBuf rstate serial r_tft tx rx wire].
  split; [reflexivity|]. split; [apply drawFrameFast_spec; [done | apply Hw]|].
  split; [reflexivity|]. split; [intros x y Hx Hy; by apply readPixel_spec_ops|].
  split; [by apply readback_spec_ops | done].
Qed.

Lemma C5_witness :
  ∃ w', loop_ (boot_world [0xDE; 0xAD] ((Rx <$> solid_frame 0x81) ++ [Silence])) = Some w' ∧
        frameBuf w' = solid_frame 0x81 ∧ tx (serial w') = [ACK].
Proof.
  destruct (C5_resync_after_buffered_garbage
              (boot_world [0xDE; 0xAD] ((Rx <$> solid_frame 0x81) ++ [Silence]))
              [0xDE; 0xAD] (solid_frame 0x81) [Silence])
    as (w' & Ec & Hbuf & _ & _ & _ & _ & Htx & _).
  - split; reflexivity.
  - reflexivity.
  - apply Forall_replicate. unfold is_byte. lia.
  - reflexivity.
  - reflexivity.
  - exists w'. split; [exact Ec|]. split; [exact Hbuf | exact Htx].
Defined.

(** ** Solid frames *)

Lemma nth_solid_frame (v : Z) (i : nat) :
  Z.of_nat i < BYTES_PER_FRAME → nth i (solid_frame v) 0 = v.
Proof.
  intros Hi. apply nth_lookup_Some. unfold solid_frame.
  apply lookup_replicate_2. lia.
Qed.

Lemma spec_colour_solid (v x y : Z) :
  0 ≤ x < FRAME_W → 0 ≤ y < FRAME_H →
  spec_colour (solid_frame v) x y
  = if Z.testbit v (7 - x mod 8) then TFT_WHITE else TFT_BLACK.
Proof.
  intros Hx Hy. unfold spec_colour.
  pose proof (frame_index_bounds x y Hx Hy).
  rewrite nth_solid_frame by lia. reflexivity.
Qed.

Lemma testbit_0xFF (x : Z) : Z.testbit 0xFF (7 - x mod 8) = true.
Proof.
  assert (H : 0 ≤ x mod 8 < 8) by (apply Z.mod_pos_bound; lia).
  assert (Hk : x mod 8 = 0 ∨ x mod 8 = 1 ∨ x mod 8 = 2 ∨ x mod 8 = 3 ∨
               x mod 8 = 4 ∨ x mod 8 = 5 ∨ x mod 8 = 6 ∨ x mod 8 = 7) by lia.
  destruct Hk as [->|[->|[->|[->|[->|[->|[->| ->]]]]]]]; reflexivity.
Qed.

(** C7: with the reference dimensions, a complete all-0x00 frame leaves
    every pixel of the frame area black and a complete all-0xFF frame
    leaves every pixel white; either way one byte 0xAA is written. *)
Theorem C7_solid_frames (w : World) (rest : list wire_event) :
  wf_world w →
  FRAME_W = 128 ∧ FRAME_H = 96 ∧ BYTES_PER_FRAME = 1536 ∧
  (wire (serial w) = (Rx <$> replicate 1536 0x00) ++ rest →
   ∃ w', loop_ w = Some w' ∧
         (∀ x y, 0 ≤ x < 128 → 0 ≤ y < 96 →
                 readPixel (r_tft (rstate w')) x y = Some TFT_BLACK) ∧
         tx (serial w') = tx (serial w) ++ [0xAA]) ∧
  (wire (serial w) = (Rx <$> replicate 1536 0xFF) ++ rest →
   ∃ w', loop_ w = Some w' ∧
         (∀ x y, 0 ≤ x < 128 → 0 ≤ y < 96 →
                 readPixel (r_tft (rstate w')) x y = Some TFT_WHITE) ∧
         tx (serial w') = tx (serial w) ++ [0xAA]).
Proof.
  intros Hw. do 3 (split; [reflexivity|]).
  change (replicate 1536 0x00) with (solid_frame 0x00).
  change (replicate 1536 0xFF) with (solid_frame 0xFF).
  assert (H00 : is_byte 0x00) by (unfold is_byte; lia).
  assert (HFF : is_byte 0xFF) by (unfold is_byte; lia).
  split; intros Hwire; eexists.
  - rewrite (loop_full_frame w _ rest Hw (solid_frame_length _) (solid_frame_bytes _ H00) Hwire).
    split; [reflexivity|]. split; [|reflexivity].
    intros x y Hx Hy. cbn [rstate r_tft].
    rewrite readPixel_spec_ops, spec_colour_solid by (unfold FRAME_W, FRAME_H; lia).
    by rewrite Z.testbit_0_l.
  - rewrite (loop_full_frame w _ rest Hw (solid_frame_length _) (solid_frame_bytes _ HFF) Hwire).
    split; [reflexivity|]. split; [|reflexivity].
    intros x y Hx Hy. cbn [rstate r_tft].
    rewrite readPixel_spec_ops, spec_colour_solid by (unfold FRAME_W, FRAME_H; lia).
    by rewrite testbit_0xFF.
Qed.

Lemma C7_witness :
  (∃ w', loop_ (boot_world [] ((Rx <$> replicate 1536 0x00) ++ [])) = Some w' ∧
         readPixel (r_tft (rstate w')) 127 95 = Some TFT_BLACK ∧
         tx (serial w') = [0xAA]).
Proof.
  destruct (C7_solid_frames (boot_world [] ((Rx <$> replicate 1536 0x00) ++ [])) [])
    as (_ & _ & _ & H0 & _); [split; reflexivity|].
  destruct (H0 eq_refl) as (w' & El & Hpix & Htx).
  exists w'. split; [exact El|]. split; [apply Hpix; lia | exact Htx].
Defined.

(** C8: two identical complete frames in consecutive cycles are rendered
    by the same transfers both times, show the same surface and leave
    exactly two acknowledgement bytes; and whatever world a cycle starts
    from, the transfers, the surface, the buffers and the outbound byte it
    produces for that frame are the same. *)
Theorem C8_same_frame_same_output
    (w : World) (F : list Z) (rest : list wire_event) :
  wf_world w →
  Z.of_nat (length F) = BYTES_PER_FRAME → Forall is_byte F →
  wire (serial w) = (Rx <$> F) ++ (Rx <$> F) ++ rest →
  ∃ w1 w2 : World,
    loop_ w = Some w1 ∧ loop_ w1 = Some w2 ∧
    r_tft (rstate w1) = r_tft (rstate w) ++ spec_ops F ∧
    r_tft (rstate w2) = r_tft (rstate w1) ++ spec_ops F ∧
    (∀ x y, 0 ≤ x < FRAME_W → 0 ≤ y < FRAME_H →
            readPixel (r_tft (rstate w1)) x y = readPixel (r_tft (rstate w2)) x y) ∧
    readback (r_tft (rstate w1)) = readback (r_tft (rstate w2)) ∧
    tx (serial w2) = tx (serial w) ++ [ACK; ACK] ∧
    ∀ (v : World) (rest' : list wire_event),
      wf_world v → wire (serial v) = (Rx <$> F) ++ rest' →
      ∃ v', loop_ v = Some v' ∧
            r_tft (rstate v') = r_tft (rstate v) ++ spec_ops F ∧
            (∀ x y, 0 ≤ x < FRAME_W → 0 ≤ y < FRAME_H →
                    readPixel (r_tft (rstate v')) x y = readPixel (r_tft (rstate w1)) x y) ∧
            frameBuf v' = frameBuf w1 ∧
            r_lineBuf (rstate v') = r_lineBuf (rstate w1) ∧
            tx (serial v') = tx (serial v) ++ [ACK].
Proof.
  intros Hw HF Hbytes Hwire.
  pose proof (loop_full_frame w F _ Hw HF Hbytes Hwire) as E1.
  pose proof (loop_preserves_wf _ _ Hw E1) as Hw1.
  pose proof (loop_full_frame _ F rest Hw1 HF Hbytes eq_refl) as E2.
  eexists _, _. split; [exact E1|]. split; [exact E2|].
  cbn [rstate r_tft serial tx frameBuf r_lineBuf].
  split; [reflexivity|]. split; [reflexivity|].
  split; [intros x y Hx Hy; by rewrite !readPixel_spec_ops|].
  split; [by rewrite !readback_spec_ops|].
  split; [by rewrite <- (assoc_L (++))|].
  intros v rest' Hv Hvw. eexists.
  split; [by apply (loop_full_frame v F rest')|].
  cbn [rstate r_tft serial tx frameBuf r_lineBuf].
  split; [reflexivity|].
  split; [intros x y Hx Hy; by rewrite !readPixel_spec_ops | done].
Qed.

Lemma C8_witness :
  ∃ w1 w2,
    loop_ (boot_world [] ((Rx <$> solid_frame 0x5A) ++ (Rx <$> solid_frame 0x5A) ++ []))
    = Some w1 ∧
    loop_ w1 = Some w2 ∧ tx (serial w2) = [ACK; ACK].
Proof.
  destruct (C8_same_frame_same_output
              (boot_world [] ((Rx <$> solid_frame 0x5A) ++ (Rx <$> solid_frame 0x5A) ++ []))
              (solid_frame 0x5A) [])
    as (w1 & w2 & E1 & E2 & _ & _ & _ & _ & Htx & _).
  - split; reflexivity.
  - reflexivity.
  - apply Forall_replicate. unfold is_byte. lia.
  - reflexivity.
  - exists w1, w2. split; [exact E1|]. split; [exact E2 | exact Htx].
Defined.

(** ** Memory safety of the renderer *)

(** C9: for every row [y] and column [x] of the frame, the read of the
    frame buffer goes to index [y * (FRAME_W / 8) + x / 8], which lies
    below [BYTES_PER_FRAME] = 1536, and the write to the scanline buffer
    goes to index [x], which lies below [FRAME_W] = 128; so both checked
    accesses succeed, and so does the whole call. *)
Theorem C9_renderer_indexing_in_bounds (F : list Z) (r : RState) :
  Z.of_nat (length F) = BYTES_PER_FRAME → wf_rstate r →
  BYTES_PER_FRAME = 1536 ∧ FRAME_W = 128 ∧
  (∀ x y, 0 ≤ x < FRAME_W → 0 ≤ y < FRAME_H →
     ptr_load (ptr_add (Ptr F 0) (y * (FRAME_W / 8))) (Z.shiftr x 3)
     = load F (y * (FRAME_W / 8) + x / 8) ∧
     0 ≤ y * (FRAME_W / 8) + x / 8 < BYTES_PER_FRAME ∧
     is_Some (load F (y * (FRAME_W / 8) + x / 8)) ∧
     ∀ (lineBuf : list Z) (c : Z),
       Z.of_nat (length lineBuf) = FRAME_W →
       is_Some (store lineBuf x c) ∧
       column_body (ptr_add (Ptr F 0) (y * (FRAME_W / 8))) x lineBuf
       = store lineBuf x (spec_colour F x y)) ∧
  is_Some (drawFrameFast (Ptr F 0) r).
Proof.
  intros HF Hr. do 2 (split; [reflexivity|]). split.
  - intros x y Hx Hy. pose proof (frame_index_bounds x y Hx Hy) as Hi.
    split; [unfold ptr_load, ptr_add; simpl; by rewrite shiftr3_div8|].
    split; [exact Hi|].
    split; [rewrite load_Some by lia; by eexists|].
    intros lineBuf c Hlb.
    split; [rewrite store_Some by lia; by eexists|].
    rewrite column_body_step by (done || lia). by rewrite store_Some by lia.
  - rewrite drawFrameFast_spec by done. by eexists.
Qed.

Lemma C9_witness :
  is_Some (drawFrameFast (Ptr (solid_frame 0x0F) 0) boot_rstate) ∧
  is_Some (load (solid_frame 0x0F) (95 * (FRAME_W / 8) + 127 / 8)).
Proof.
  destruct (C9_renderer_indexing_in_bounds (solid_frame 0x0F) boot_rstate)
    as (_ & _ & Hacc & Hdraw); [reflexivity | reflexivity |].
  split; [exact Hdraw|].
  destruct (Hacc 127 95) as (_ & _ & Hload & _); [unfold FRAME_W; lia | unfold FRAME_H; lia |].
  exact Hload.
Defined.

(** The checks are real: one byte less in the frame buffer and the
    renderer runs off its end. *)
Example drawFrameFast_short_buffer :
  drawFrameFast (Ptr (replicate 1535 0) 0) boot_rstate = None.
Proof. vm_compute. reflexivity. Qed.

(** ** The frame buffer across cycles *)

(** C10: a cycle takes some bytes [got] from the head of the link.  If
    they are fewer than [BYTES_PER_FRAME], the frame buffer afterwards
    holds them followed by what the buffer held before, and the renderer
    state is untouched; otherwise the buffer handed to [drawFrameFast]
    is exactly [got], the [BYTES_PER_FRAME] bytes read in this cycle, with
    no byte of the earlier content left.  The array sizes survive the
    cycle, so this holds again for the next one. *)
Theorem C10_renderer_only_sees_complete_reads (w : World) :
  wf_world w →
  ∃ (got : list Z) (tail : list wire_event) (w' : World),
    loop_ w = Some w' ∧ wf_world w' ∧
    wire (serial w) = (Rx <$> got) ++ tail ∧
    ((Z.of_nat (length got) = BYTES_PER_FRAME ∧
      wire (serial w') = tail ∧
      frameBuf w' = got ∧
      drawFrameFast (Ptr got 0) (rstate w) = Some (rstate w'))
     ∨
     (Z.of_nat (length got) < BYTES_PER_FRAME ∧
      frameBuf w' = got ++ drop (length got) (frameBuf w) ∧
      rstate w' = rstate w)).
Proof.
  intros Hw. destruct (loop_cases w Hw) as (got & wr & _ & [tail Ht] & Hcase).
  destruct Hcase as [(Hlen & Hwire & _ & Hdraw & El)|(Hlen & _ & El)].
  - exists got, wr. eexists. split; [exact El|].
    split; [by eapply loop_preserves_wf|]. split; [exact Hwire|]. left. done.
  - exists got, tail. eexists. split; [exact El|].
    split; [by eapply loop_preserves_wf|]. split; [exact Ht|]. right. done.
Qed.

Lemma C10_witness :
  ∃ w', loop_ (boot_world [] ((Rx <$> [9; 8; 7]) ++ [Silence])) = Some w' ∧ wf_world w'.
Proof.
  destruct (C10_renderer_only_sees_complete_reads
              (boot_world [] ((Rx <$> [9; 8; 7]) ++ [Silence])))
    as (got & tail & w' & El & Hw' & _); [split; reflexivity|].
  exists w'. split; [exact El | exact Hw'].
Defined.

(** A short read does leave a mixture behind: three fresh bytes in front
    of the previous frame's bytes, and nothing drawn or sent. *)
Example short_read_mixes_buffer :
  loop_ (MkWorld (solid_frame 0xFF) boot_rstate
                 (MkSerial [] ((Rx <$> [9; 8; 7]) ++ [Silence]) []))
  = Some (MkWorld ([9; 8; 7] ++ replicate 1533 0xFF) boot_rstate (MkSerial [] [] [])).
Proof. vm_compute. reflexivity. Qed.

(** One full cycle from the boot state, with two stale bytes buffered. *)
Example loop_runs :
  loop_ (boot_world [1; 2] (Rx <$> solid_frame 0xA5))
  = Some (MkWorld (solid_frame 0xA5)
                  (MkR (last_row (solid_frame 0xA5)) (spec_ops (solid_frame 0xA5)))
                  (MkSerial [] [] [0xAA])).
Proof. vm_compute. reflexivity. Qed.

(** Three cycles on a link that sends a frame and then three more bytes,
    two of which reach the receive buffer during the rendering: the frame
    is drawn and acknowledged once, the stray bytes are flushed or read
    short, and nothing else goes out. *)
Example cycles_run :
  cycles [0; 2; 0]%nat
         (boot_world [] ((Rx <$> solid_frame 0x3C) ++ [Rx 1; Rx 2; Rx 3; Silence]))
  = Some (MkWorld ([3] ++ replicate 1535 0x3C)
                  (MkR (last_row (solid_frame 0x3C)) (spec_ops (solid_frame 0x3C)))
                  (MkSerial [] [] [0xAA])).
Proof. vm_compute. reflexivity. Qed.

(** The flush only discards what is already buffered.  A garbage byte that
    is still on the link when the read starts is taken as the first byte
    of the frame: the read is complete, and what gets rendered is the
    shifted block. *)
Example unbuffered_garbage_is_rendered :
  loop_ (boot_world [] (Rx 0xEE :: (Rx <$> solid_frame 0x00)))
  = Some (MkWorld (0xEE :: replicate 1535 0x00)
                  (MkR (last_row (0xEE :: replicate 1535 0x00))
                       (spec_ops (0xEE :: replicate 1535 0x00)))
                  (MkSerial [] [Rx 0x00] [0xAA])).
Proof. vm_compute. reflexivity. Qed.

(** * Further properties of the renderer *)

(** ** Which bytes the renderer reads *)

Lemma for_loop_ext {St : Type} (body1 body2 : Z → St → option St) :
  ∀ (n : nat) (i : Z) (s : St),
    (∀ j s0, i ≤ j < i + Z.of_nat n → body1 j s0 = body2 j s0) →
    for_loop n i body1 s = for_loop n i body2 s.
Proof.
  induction n as [|n IH]; intros i s Hext; [reflexivity|].
  cbn [for_loop]. rewrite Hext by lia.
  destruct (body2 i s) as [s'|]; [|reflexivity].
  apply IH. intros j s0 Hj. apply Hext. lia.
Qed.

Lemma for_ext {St : Type} (body1 body2 : Z → St → option St) (lo hi : Z) (s : St) :
  (∀ j s0, lo ≤ j < hi → body1 j s0 = body2 j s0) →
  for_ lo hi body1 s = for_ lo hi body2 s.
Proof.
  intros Hext. unfold for_. apply for_loop_ext. intros j s0 Hj. apply Hext. lia.
Qed.

(** A counting loop whose body fails at index [j0], after running fine up
    to there, fails as a whole. *)
Lemma for_loop_fail {St : Type} (P : Z → St → Prop) (body : Z → St → option St) (j0 : Z) :
  ∀ (n : nat) (i : Z) (s : St),
    i ≤ j0 < i + Z.of_nat n → P i s →
    (∀ j s0, i ≤ j < j0 → P j s0 → ∃ s1, body j s0 = Some s1 ∧ P (j + 1) s1) →
    (∀ s0, P j0 s0 → body j0 s0 = None) →
    for_loop n i body s = None.
Proof.
  induction n as [|n IH]; intros i s Hj0 Hi Hstep Hfail; [lia|].
  cbn [for_loop]. destruct (decide (i = j0)) as [->|Hne].
  - by rewrite Hfail.
  - destruct (Hstep i s) as (s1 & E & H1); [lia | exact Hi |]. rewrite E.
    apply IH; [lia | exact H1 | | exact Hfail].
    intros j s0 Hj. apply Hstep. lia.
Qed.

Lemma for_fail {St : Type} (P : Z → St → Prop) (body : Z → St → option St)
    (lo hi j0 : Z) (s : St) :
  lo ≤ j0 < hi → P lo s →
  (∀ j s0, lo ≤ j < j0 → P j s0 → ∃ s1, body j s0 = Some s1 ∧ P (j + 1) s1) →
  (∀ s0, P j0 s0 → body j0 s0 = None) →
  for_ lo hi body s = None.
Proof.
  intros Hj0 H0 Hstep Hfail. unfold for_.
  apply (for_loop_fail P body j0); [lia | exact H0 | exact Hstep | exact Hfail].
Qed.

Lemma load_window (A : list Z) (k i : Z) :
  0 ≤ k → k + BYTES_PER_FRAME ≤ Z.of_nat (length A) → 0 ≤ i < BYTES_PER_FRAME →
  load A (k + i) = load (take (Z.to_nat BYTES_PER_FRAME) (drop (Z.to_nat k) A)) (0 + i).
Proof.
  intros Hk Hlen Hi. unfold load.
  rewrite length_take, length_drop.
  destruct (Z.leb_spec 0 (k + i)); [|lia]. destruct (Z.leb_spec 0 (0 + i)); [|lia].
  destruct (Z.ltb_spec (k + i) (Z.of_nat (length A))); [|lia].
  destruct (Z.ltb_spec (0 + i)
              (Z.of_nat (Z.to_nat BYTES_PER_FRAME `min` (length A - Z.to_nat k)))); [|lia].
  simpl. rewrite lookup_take_lt by lia. rewrite lookup_drop. f_equal. lia.
Qed.

Lemma row_body_window (A : list Z) (k y : Z) (r : RState) :
  0 ≤ k → k + BYTES_PER_FRAME ≤ Z.of_nat (length A) → 0 ≤ y < FRAME_H →
  row_body (Ptr A k) (FRAME_W / 8) y r
  = row_body (Ptr (take (Z.to_nat BYTES_PER_FRAME) (drop (Z.to_nat k) A)) 0) (FRAME_W / 8) y r.
Proof.
  intros Hk Hlen Hy. unfold row_body.
  rewrite (for_ext _ (column_body (ptr_add (Ptr (take (Z.to_nat BYTES_PER_FRAME)
                                                      (drop (Z.to_nat k) A)) 0)
                                           (y * (FRAME_W / 8)))) 0 FRAME_W);
    [reflexivity|].
  intros x lb Hx. unfold column_body, ptr_load, ptr_add. cbn [p_arr p_off].
  rewrite shiftr3_div8. pose proof (frame_index_bounds x y Hx Hy) as Hi.
  replace (k + y * (FRAME_W / 8) + x / 8) with (k + (y * (FRAME_W / 8) + x / 8)) by lia.
  replace (0 + y * (FRAME_W / 8) + x / 8) with (0 + (y * (FRAME_W / 8) + x / 8)) by lia.
  by rewrite load_window.
Qed.

(** X1: the renderer reads nothing but the [BYTES_PER_FRAME] bytes that
    start at [data]: called with a pointer [k] cells into a larger array,
    it does exactly what it does on a copy of that window. *)
Theorem X1_drawFrameFast_reads_only_its_window (A : list Z) (k : Z) (r : RState) :
  0 ≤ k → k + BYTES_PER_FRAME ≤ Z.of_nat (length A) →
  drawFrameFast (Ptr A k) r
  = drawFrameFast (Ptr (take (Z.to_nat BYTES_PER_FRAME) (drop (Z.to_nat k) A)) 0) r.
Proof.
  intros Hk Hlen. unfold drawFrameFast.
  apply for_ext. intros y r0 Hy.
  by apply row_body_window.
Qed.

Lemma X1_witness :
  drawFrameFast (Ptr ([1; 2; 3] ++ solid_frame 0x18 ++ [4; 5]) 3) boot_rstate
  = drawFrameFast (Ptr (solid_frame 0x18) 0) boot_rstate.
Proof.
  rewrite (X1_drawFrameFast_reads_only_its_window
             ([1; 2; 3] ++ solid_frame 0x18 ++ [4; 5]) 3 boot_rstate);
    [reflexivity | lia | vm_compute; discriminate].
Defined.

(** ** A buffer that is too short *)

Lemma column_body_in_range (F lb : list Z) (x y : Z) :
  0 ≤ y * (FRAME_W / 8) + x / 8 < Z.of_nat (length F) →
  0 ≤ x < Z.of_nat (length lb) →
  column_body (ptr_add (Ptr F 0) (y * (FRAME_W / 8))) x lb
  = Some (<[Z.to_nat x := spec_colour F x y]> lb).
Proof.
  intros Hi Hx. unfold column_body, ptr_load, ptr_add. cbn [p_arr p_off].
  rewrite shiftr3_div8, Z.add_0_l. rewrite load_Some by exact Hi.
  rewrite pixel_test. by rewrite store_Some.
Qed.

Lemma column_body_out_of_range (F lb : list Z) (x y : Z) :
  ¬ (0 ≤ y * (FRAME_W / 8) + x / 8 < Z.of_nat (length F)) →
  column_body (ptr_add (Ptr F 0) (y * (FRAME_W / 8))) x lb = None.
Proof.
  intros Hi. unfold column_body, ptr_load, ptr_add. cbn [p_arr p_off].
  rewrite shiftr3_div8, Z.add_0_l. by rewrite load_None.
Qed.

Lemma drawFrameFast_short (F : list Z) (r : RState) :
  wf_rstate r → Z.of_nat (length F) < BYTES_PER_FRAME →
  drawFrameFast (Ptr F 0) r = None.
Proof.
  intros Hr HL. unfold drawFrameFast. set (L := Z.of_nat (length F)) in *.
  assert (HL0 : 0 ≤ L) by (unfold L; lia).
  unfold BYTES_PER_FRAME, FRAME_W, FRAME_H in HL. change (128 * 96 / 8) with 1536 in HL.
  assert (Hm : 0 ≤ L mod 16 < 16) by (apply Z.mod_pos_bound; lia).
  assert (Hq : 0 ≤ L / 16 < 96)
    by (split; [apply Z.div_pos; lia | apply Z.div_lt_upper_bound; lia]).
  assert (HLeq : L = 16 * (L / 16) + L mod 16) by (apply Z.div_mod; lia).
  apply (for_fail (fun _ r0 => wf_rstate r0) _ 0 FRAME_H (L / 16)).
  - unfold FRAME_H. lia.
  - exact Hr.
  - intros y r0 Hy Hr0. unfold row_body.
    destruct (for_inv (fun _ lb => Z.of_nat (length lb) = FRAME_W)
                (column_body (ptr_add (Ptr F 0) (y * (FRAME_W / 8)))) 0 FRAME_W (r_lineBuf r0))
      as (lb & E & Hlb).
    + unfold FRAME_W. lia.
    + exact Hr0.
    + intros x lb0 Hx Hlb0. eexists. split.
      * apply column_body_in_range; [|lia]. fold L.
        unfold FRAME_W in *. change (128 / 8) with 16.
        assert (0 ≤ x / 8 < 16)
          by (split; [apply Z.div_pos; lia | apply Z.div_lt_upper_bound; lia]).
        lia.
      * by rewrite length_insert.
    + rewrite E. eexists. split; [reflexivity | exact Hlb].
  - intros r0 Hr0. unfold row_body.
    rewrite (for_fail (fun _ lb => Z.of_nat (length lb) = FRAME_W) _ 0 FRAME_W
               (8 * (L mod 16))); [reflexivity | unfold FRAME_W; lia | exact Hr0 | |].
    + intros x lb0 Hx Hlb0. eexists. split.
      * apply column_body_in_range; [|unfold FRAME_W in *; lia]. fold L.
        unfold FRAME_W. change (128 / 8) with 16.
        assert (0 ≤ x / 8 < L mod 16)
          by (split; [apply Z.div_pos; lia | apply Z.div_lt_upper_bound; lia]).
        lia.
      * by rewrite length_insert.
    + intros lb0 _. apply column_body_out_of_range. fold L.
      unfold FRAME_W. change (128 / 8) with 16.
      replace (8 * (L mod 16) / 8) with (L mod 16)
        by (rewrite Z.mul_comm, Z.div_mul by lia; reflexivity).
      lia.
Qed.

Lemma drawFrameFast_long (F : list Z) (r : RState) :
  wf_rstate r → BYTES_PER_FRAME ≤ Z.of_nat (length F) →
  drawFrameFast (Ptr F 0) r
  = Some (MkR (last_row (take (Z.to_nat BYTES_PER_FRAME) F))
              (r_tft r ++ spec_ops (take (Z.to_nat BYTES_PER_FRAME) F))).
Proof.
  intros Hr HL.
  rewrite <- (drawFrameFast_spec (take (Z.to_nat BYTES_PER_FRAME) F) r);
    [| rewrite length_take; unfold BYTES_PER_FRAME, FRAME_W, FRAME_H in *;
       change (128 * 96 / 8) with 1536 in *; lia | exact Hr].
  unfold drawFrameFast. apply for_ext. intros y r0 Hy.
  rewrite (row_body_window F 0 y r0) by (done || lia). by rewrite drop_0.
Qed.

(** X2: on a well-sized scanline buffer, [drawFrameFast] completes exactly
    when at least [BYTES_PER_FRAME] bytes are readable from [data]; with
    fewer it runs off the end of the array. *)
Theorem X2_drawFrameFast_needs_a_whole_frame (F : list Z) (r : RState) :
  wf_rstate r →
  (is_Some (drawFrameFast (Ptr F 0) r) ↔ BYTES_PER_FRAME ≤ Z.of_nat (length F)) ∧
  (Z.of_nat (length F) < BYTES_PER_FRAME → drawFrameFast (Ptr F 0) r = None).
Proof.
  intros Hr. split; [|by apply drawFrameFast_short].
  split.
  - intros [r' E]. destruct (Z.le_gt_cases BYTES_PER_FRAME (Z.of_nat (length F))) as [H|H];
      [exact H|]. rewrite drawFrameFast_short in E by done. discriminate E.
  - intros HL. rewrite drawFrameFast_long by done. by eexists.
Qed.

Lemma X2_witness :
  drawFrameFast (Ptr (replicate 1000 0x55) 0) boot_rstate = None.
Proof.
  apply (X2_drawFrameFast_needs_a_whole_frame (replicate 1000 0x55) boot_rstate);
    [reflexivity | vm_compute; reflexivity].
Defined.

(** ** What the renderer leaves on the surface *)

Lemma op_pixel_row_outside (l : list Z) (x y y' : Z) :
  ¬ (0 ≤ x < FRAME_W) → op_pixel (MkPush 0 y' FRAME_W 1 l) x y = None.
Proof.
  intros Hx. unfold op_pixel. cbn [px py pw ph pdata].
  destruct (Z.leb_spec 0 x); [|reflexivity].
  destruct (Z.ltb_spec x (0 + FRAME_W)); [lia | reflexivity].
Qed.

Lemma readPixel_rows_outside (F : list Z) (t : TFT) (x y : Z) (n : nat) :
  ¬ (0 ≤ x < FRAME_W ∧ 0 ≤ y < Z.of_nat n) →
  readPixel (t ++ ((fun y => MkPush 0 y FRAME_W 1 (spec_row F y)) <$> seqZ 0 (Z.of_nat n))) x y
  = readPixel t x y.
Proof.
  induction n as [|n IH]; intros Hout.
  - by rewrite seqZ_nil, app_nil_r.
  - rewrite seqZ_S, fmap_app, (assoc_L (++)). cbn [fmap list_fmap].
    rewrite readPixel_snoc.
    destruct (decide (0 ≤ x < FRAME_W)) as [Hx|Hx].
    + rewrite op_pixel_row_miss by lia. apply IH. lia.
    + rewrite op_pixel_row_outside by done. apply IH. lia.
Qed.

Lemma readPixel_spec_ops_outside (F : list Z) (t : TFT) (x y : Z) :
  ¬ (0 ≤ x < FRAME_W ∧ 0 ≤ y < FRAME_H) →
  readPixel (t ++ spec_ops F) x y = readPixel t x y.
Proof.
  intros Hout. unfold spec_ops.
  replace FRAME_H with (Z.of_nat (Z.to_nat FRAME_H)) at 1 by (unfold FRAME_H; lia).
  apply readPixel_rows_outside. unfold FRAME_H in *. lia.
Qed.

(** X3: a rendering overwrites the whole [FRAME_W] x [FRAME_H] area with
    the frame, whatever the surface showed there before, and changes no
    pixel outside that area. *)
Theorem X3_drawFrameFast_surface (F : list Z) (r : RState) :
  Z.of_nat (length F) = BYTES_PER_FRAME → wf_rstate r →
  ∃ r', drawFrameFast (Ptr F 0) r = Some r' ∧
        ∀ x y,
          (0 ≤ x < FRAME_W ∧ 0 ≤ y < FRAME_H →
           readPixel (r_tft r') x y = Some (spec_colour F x y)) ∧
          (¬ (0 ≤ x < FRAME_W ∧ 0 ≤ y < FRAME_H) →
           readPixel (r_tft r') x y = readPixel (r_tft r) x y).
Proof.
  intros HF Hr. eexists. split; [by apply drawFrameFast_spec|].
  intros x y. cbn [r_tft]. split.
  - intros [Hx Hy]. by apply readPixel_spec_ops.
  - apply readPixel_spec_ops_outside.
Qed.

Lemma X3_witness :
  ∃ r', drawFrameFast (Ptr (solid_frame 0xFF) 0)
                      (MkR (replicate 128 0) [MkPush 0 0 200 100 (replicate (Z.to_nat 20000) 0x07E0)])
        = Some r' ∧
        readPixel (r_tft r') 127 95 = Some TFT_WHITE ∧
        readPixel (r_tft r') 128 95 = Some 0x07E0.
Proof.
  destruct (X3_drawFrameFast_surface (solid_frame 0xFF)
              (MkR (replicate 128 0) [MkPush 0 0 200 100 (replicate (Z.to_nat 20000) 0x07E0)]))
    as (r' & E & H); [reflexivity | reflexivity |].
  exists r'. split; [exact E|]. split.
  - destruct (H 127 95) as [Hin _]. rewrite Hin by (unfold FRAME_W, FRAME_H; lia).
    vm_compute. reflexivity.
  - destruct (H 128 95) as [_ Hout]. rewrite Hout by (unfold FRAME_W, FRAME_H; lia).
    vm_compute. reflexivity.
Defined.



(** ** How the picture depends on the bytes *)

Lemma spec_colour_insert (F : list Z) (i : nat) (b x y : Z) :
  0 ≤ x < FRAME_W → 0 ≤ y < FRAME_H →
  ¬ (y = Z.of_nat i / (FRAME_W / 8) ∧
     8 * (Z.of_nat i mod (FRAME_W / 8)) ≤ x < 8 * (Z.of_nat i mod (FRAME_W / 8)) + 8) →
  spec_colour (<[i := b]> F) x y = spec_colour F x y.
Proof.
  intros Hx Hy Hout. unfold spec_colour.
  assert (Hne : i ≠ Z.to_nat (y * (FRAME_W / 8) + x / 8)).
  { intros ->. apply Hout. pose proof (frame_index_bounds x y Hx Hy) as Hb.
    rewrite Z2Nat.id by lia. unfold FRAME_W, FRAME_H in *. change (128 / 8) with 16 in *.
    clear Hout Hb. Z.div_mod_to_equations. lia. }
  rewrite !nth_lookup, list_lookup_insert_ne by exact Hne. reflexivity.
Qed.

(** X5: a frame byte only reaches its own eight pixels.  Replacing byte
    [i] of the frame leaves every pixel of the rendering unchanged except,
    at most, the eight pixels of columns [8 * (i mod 16)] to
    [8 * (i mod 16) + 7] in row [i / 16]. *)
Theorem X5_one_byte_eight_pixels (F : list Z) (i : nat) (b : Z) (r1 r2 : RState) :
  Z.of_nat (length F) = BYTES_PER_FRAME → wf_rstate r1 → wf_rstate r2 →
  ∃ r1' r2',
    drawFrameFast (Ptr F 0) r1 = Some r1' ∧
    drawFrameFast (Ptr (<[i := b]> F) 0) r2 = Some r2' ∧
    ∀ x y, 0 ≤ x < FRAME_W → 0 ≤ y < FRAME_H →
      ¬ (y = Z.of_nat i / (FRAME_W / 8) ∧
         8 * (Z.of_nat i mod (FRAME_W / 8)) ≤ x < 8 * (Z.of_nat i mod (FRAME_W / 8)) + 8) →
      readPixel (r_tft r2') x y = readPixel (r_tft r1') x y.
Proof.
  intros HF Hr1 Hr2. eexists _, _.
  split; [by apply drawFrameFast_spec|].
  split; [apply drawFrameFast_spec; [by rewrite length_insert | exact Hr2]|].
  intros x y Hx Hy Hout. cbn [r_tft].
  rewrite !readPixel_spec_ops by done. f_equal. by apply spec_colour_insert.
Qed.

Lemma X5_witness :
  ∃ r1' r2',
    drawFrameFast (Ptr (solid_frame 0x00) 0) boot_rstate = Some r1' ∧
    drawFrameFast (Ptr (<[17%nat := 0xFF]> (solid_frame 0x00)) 0) boot_rstate = Some r2' ∧
    readPixel (r_tft r2') 7 1 = readPixel (r_tft r1') 7 1 ∧
    readPixel (r_tft r2') 8 0 = readPixel (r_tft r1') 8 0.
Proof.
  destruct (X5_one_byte_eight_pixels (solid_frame 0x00) 17 0xFF boot_rstate boot_rstate)
    as (r1' & r2' & E1 & E2 & H); [reflexivity | reflexivity | reflexivity |].
  exists r1', r2'. split; [exact E1|]. split; [exact E2|].
  split; apply H; unfold FRAME_W, FRAME_H; try lia;
    change (128 / 8) with 16; change (Z.of_nat 17 / 16) with 1;
    change (Z.of_nat 17 mod 16) with 1; lia.
Defined.

Lemma testbit_lxor_0xFF (b x : Z) :
  Z.testbit (Z.lxor b 0xFF) (7 - x mod 8) = negb (Z.testbit b (7 - x mod 8)).
Proof. rewrite Z.lxor_spec, testbit_0xFF. by destruct (Z.testbit b _). Qed.

Lemma spec_colour_complement (F : list Z) (x y : Z) :
  Z.of_nat (length F) = BYTES_PER_FRAME → 0 ≤ x < FRAME_W → 0 ≤ y < FRAME_H →
  spec_colour ((fun b => Z.lxor b 0xFF) <$> F) x y
  = if Z.testbit (nth (Z.to_nat (y * (FRAME_W / 8) + x / 8)) F 0) (7 - x mod 8)
    then TFT_BLACK else TFT_WHITE.
Proof.
  intros HF Hx Hy. unfold spec_colour.
  rewrite (nth_lookup ((fun b => Z.lxor b 0xFF) <$> F)), list_lookup_fmap.
  rewrite lookup_frame by done. simpl.
  rewrite testbit_lxor_0xFF. by destruct (Z.testbit _ _).
Qed.

(** X6: complementing every byte of the frame gives the negative picture:
    each pixel of the frame area is white where it was black and black
    where it was white. *)
Theorem X6_complement_frame_negative_picture (F : list Z) (r1 r2 : RState) :
  Z.of_nat (length F) = BYTES_PER_FRAME → wf_rstate r1 → wf_rstate r2 →
  ∃ r1' r2',
    drawFrameFast (Ptr F 0) r1 = Some r1' ∧
    drawFrameFast (Ptr ((fun b => Z.lxor b 0xFF) <$> F) 0) r2 = Some r2' ∧
    ∀ x y, 0 ≤ x < FRAME_W → 0 ≤ y < FRAME_H →
      (readPixel (r_tft r2') x y = Some TFT_WHITE ↔
       readPixel (r_tft r1') x y = Some TFT_BLACK) ∧
      (readPixel (r_tft r2') x y = Some TFT_BLACK ↔
       readPixel (r_tft r1') x y = Some TFT_WHITE).
Proof.
  intros HF Hr1 Hr2. eexists _, _.
  split; [by apply drawFrameFast_spec|].
  split; [apply drawFrameFast_spec; [by rewrite length_fmap | exact Hr2]|].
  intros x y Hx Hy. cbn [r_tft].
  rewrite !readPixel_spec_ops by done. rewrite spec_colour_complement by done.
  unfold spec_colour. destruct (Z.testbit _ _); split; split; intros H;
    try reflexivity; discriminate H.
Qed.

Lemma X6_witness :
  ∃ r1' r2',
    drawFrameFast (Ptr (solid_frame 0xF0) 0) boot_rstate = Some r1' ∧
    drawFrameFast (Ptr ((fun b => Z.lxor b 0xFF) <$> solid_frame 0xF0) 0) boot_rstate
    = Some r2' ∧
    (readPixel (r_tft r2') 0 0 = Some TFT_BLACK ↔ readPixel (r_tft r1') 0 0 = Some TFT_WHITE).
Proof.
  destruct (X6_complement_frame_negative_picture (solid_frame 0xF0) boot_rstate boot_rstate)
    as (r1' & r2' & E1 & E2 & H); [reflexivity | reflexivity | reflexivity |].
  exists r1', r2'. split; [exact E1|]. split; [exact E2|].
  destruct (H 0 0) as [_ Hb]; [unfold FRAME_W; lia | unfold FRAME_H; lia | exact Hb].
Defined.

(** * Further properties of the receive-render loop *)

Lemma loop_short_read (w : World) (pre : list Z) (rest : list wire_event) :
  wf_world w → Z.of_nat (length pre) < BYTES_PER_FRAME → Forall is_byte pre →
  wire (serial w) = (Rx <$> pre) ++ Silence :: rest →
  loop_ w = Some (MkWorld (pre ++ drop (length pre) (frameBuf w)) (rstate w)
                          (MkSerial [] rest (tx (serial w)))).
Proof.
  intros [Hbuf Hr] Hlen Hbytes Hw. rewrite loop_unfold. unfold loop_after_flush.
  cbn [serial frameBuf rstate]. rewrite Hw, Serial_readBytes_short by done.
  destruct (Z.eqb_spec (Z.of_nat (length pre)) BYTES_PER_FRAME); [lia | reflexivity].
Qed.

Lemma uart_arrive_run (w : list wire_event) (t : list Z) :
  ∀ (k : nat) (F r : list Z),
    (k ≤ length F)%nat →
    uart_arrive k (MkSerial r ((Rx <$> F) ++ w) t)
    = MkSerial (r ++ take k F) ((Rx <$> drop k F) ++ w) t.
Proof.
  induction k as [|k IH]; intros F r Hk.
  - cbn [uart_arrive take drop]. by rewrite app_nil_r.
  - destruct F as [|b F]; [simpl in Hk; lia|].
    cbn [uart_arrive wire rx tx fmap list_fmap app take drop].
    rewrite IH by (simpl in Hk; lia). by rewrite <- (assoc_L (++)).
Qed.

(** X7: the flush does not protect against garbage that is still on the
    link.  If [G] (at most a frame long) precedes the frame [F] there, the
    cycle reads a full block made of [G] and the head of [F], renders and
    acknowledges that block, and leaves the last [length G] bytes of [F]
    on the link. *)
Theorem X7_garbage_on_the_link_shifts_the_frame
    (w : World) (G F : list Z) (rest : list wire_event) :
  wf_world w →
  Z.of_nat (length G) ≤ BYTES_PER_FRAME → Forall is_byte G → valid_frame F →
  wire (serial w) = (Rx <$> G) ++ (Rx <$> F) ++ rest →
  ∃ w' (m : nat),
    m = Z.to_nat (BYTES_PER_FRAME - Z.of_nat (length G)) ∧
    loop_ w = Some w' ∧
    frameBuf w' = G ++ take m F ∧
    r_tft (rstate w') = r_tft (rstate w) ++ spec_ops (G ++ take m F) ∧
    tx (serial w') = tx (serial w) ++ [ACK] ∧
    wire (serial w') = (Rx <$> drop m F) ++ rest ∧
    length (drop m F) = length G.
Proof.
  intros Hw HG HGb [HF HFb] Hwire.
  set (m := Z.to_nat (BYTES_PER_FRAME - Z.of_nat (length G))).
  assert (Hsplit : wire (serial w) = (Rx <$> (G ++ take m F)) ++ ((Rx <$> drop m F) ++ rest)).
  { rewrite Hwire, fmap_app, <- (assoc_L (++)). f_equal.
    rewrite (assoc_L (++)), <- fmap_app, take_drop. reflexivity. }
  eexists _, m. split; [reflexivity|].
  split.
  - apply (loop_full_frame w (G ++ take m F) ((Rx <$> drop m F) ++ rest) Hw);
      [| | exact Hsplit].
    + rewrite length_app, length_take. lia.
    + apply Forall_app. split; [exact HGb | by apply Forall_take].
  - cbn [frameBuf rstate r_tft serial tx wire].
    repeat split. rewrite length_drop. lia.
Qed.

Lemma X7_witness :
  ∃ w', loop_ (boot_world [] ((Rx <$> [0xEE]) ++ (Rx <$> solid_frame 0x00) ++ [])) = Some w' ∧
        frameBuf w' = [0xEE] ++ take 1535 (solid_frame 0x00) ∧
        tx (serial w') = [ACK].
Proof.
  destruct (X7_garbage_on_the_link_shifts_the_frame
              (boot_world [] ((Rx <$> [0xEE]) ++ (Rx <$> solid_frame 0x00) ++ []))
              [0xEE] (solid_frame 0x00) [])
    as (w' & m & Hm & El & Hbuf & _ & Htx & _).
  - split; reflexivity.
  - vm_compute. discriminate.
  - repeat constructor; unfold is_byte; lia.
  - split; [reflexivity | apply Forall_replicate; unfold is_byte; lia].
  - reflexivity.
  - exists w'. split; [exact El|]. subst m. split; [exact Hbuf | exact Htx].
Defined.

(** X8: a stall costs one cycle and nothing else.  When fewer than
    [BYTES_PER_FRAME] bytes are followed by a silence and then by a whole
    frame, the first cycle draws and sends nothing, and the second one
    receives exactly that frame, renders it and acknowledges it. *)
Theorem X8_recovery_after_a_stall
    (w : World) (pre F : list Z) (rest : list wire_event) :
  wf_world w →
  Z.of_nat (length pre) < BYTES_PER_FRAME → Forall is_byte pre → valid_frame F →
  wire (serial w) = (Rx <$> pre) ++ Silence :: (Rx <$> F) ++ rest →
  ∃ w1 w2,
    loop_ w = Some w1 ∧
    rstate w1 = rstate w ∧ tx (serial w1) = tx (serial w) ∧
    loop_ w1 = Some w2 ∧
    frameBuf w2 = F ∧
    r_tft (rstate w2) = r_tft (rstate w) ++ spec_ops F ∧
    tx (serial w2) = tx (serial w) ++ [ACK] ∧
    wire (serial w2) = rest.
Proof.
  intros Hw Hlen Hpre [HF HFb] Hwire.
  pose proof (loop_short_read w pre _ Hw Hlen Hpre Hwire) as E1.
  pose proof (loop_preserves_wf _ _ Hw E1) as Hw1.
  pose proof (loop_full_frame _ F rest Hw1 HF HFb eq_refl) as E2.
  eexists _, _. split; [exact E1|]. cbn [rstate serial tx].
  split; [reflexivity|]. split; [reflexivity|]. split; [exact E2|]. done.
Qed.

Lemma X8_witness :
  ∃ w1 w2,
    loop_ (boot_world [] ((Rx <$> [1; 2; 3]) ++ Silence :: (Rx <$> solid_frame 0x99) ++ []))
    = Some w1 ∧
    loop_ w1 = Some w2 ∧ frameBuf w2 = solid_frame 0x99 ∧ tx (serial w2) = [ACK].
Proof.
  destruct (X8_recovery_after_a_stall
              (boot_world [] ((Rx <$> [1; 2; 3]) ++ Silence :: (Rx <$> solid_frame 0x99) ++ []))
              [1; 2; 3] (solid_frame 0x99) [])
    as (w1 & w2 & E1 & _ & _ & E2 & Hbuf & _ & Htx & _).
  - split; reflexivity.
  - vm_compute. reflexivity.
  - repeat constructor; unfold is_byte; lia.
  - split; [reflexivity | apply Forall_replicate; unfold is_byte; lia].
  - reflexivity.
  - exists w1, w2. split; [exact E1|]. split; [exact E2|]. split; [exact Hbuf | exact Htx].
Defined.

(** X9: a sender that transmits whole frames back to back, each within the
    read timeout of the previous one and none early, gets every one of
    them rendered in order and acknowledged once; afterwards the frame
    buffer and the frame area hold the last frame. *)
Theorem X9_stream_of_frames (Fs : list (list Z)) (w : World) (rest : list wire_event) :
  wf_world w → Forall valid_frame Fs →
  wire (serial w) = frames_on_wire Fs rest →
  ∃ w', cycles (replicate (length Fs) 0%nat) w = Some w' ∧
        r_tft (rstate w') = r_tft (rstate w) ++ concat (spec_ops <$> Fs) ∧
        tx (serial w') = tx (serial w) ++ replicate (length Fs) ACK ∧
        wire (serial w') = rest ∧
        ∀ F, list_basics.list.last Fs = Some F →
             frameBuf w' = F ∧
             ∀ x y, 0 ≤ x < FRAME_W → 0 ≤ y < FRAME_H →
                    readPixel (r_tft (rstate w')) x y = Some (spec_colour F x y).
Proof.
  revert w. induction Fs as [|F Fs IH]; intros w Hw Hvalid Hwire.
  - exists w. cbn [length replicate cycles fmap list_fmap concat].
    rewrite !app_nil_r. repeat split; [exact Hwire | discriminate | discriminate].
  - apply Forall_cons_1 in Hvalid as [[HF HFb] Hvalid].
    cbn [frames_on_wire foldr] in Hwire.
    change (foldr (fun F acc => (Rx <$> F) ++ acc) rest Fs) with (frames_on_wire Fs rest) in Hwire.
    cbn [length replicate cycles uart_arrive].
    rewrite (loop_full_frame (MkWorld (frameBuf w) (rstate w) (serial w)) F
               (frames_on_wire Fs rest)); [| exact Hw | exact HF | exact HFb | exact Hwire].
    cbn [rstate serial tx].
    set (w1 := MkWorld F (MkR (last_row F) (r_tft (rstate w) ++ spec_ops F))
                       (MkSerial [] (frames_on_wire Fs rest) (tx (serial w) ++ [ACK]))).
    assert (Hw1 : wf_world w1) by (split; [exact HF | apply length_spec_row]).
    destruct (IH w1 Hw1 Hvalid eq_refl) as (w' & Ec & Ht & Hx & Hwr & Hlast).
    exists w'. split; [exact Ec|].
    split; [rewrite Ht; cbn [w1 rstate r_tft fmap list_fmap concat];
            by rewrite <- (assoc_L (++))|].
    split; [rewrite Hx; cbn [w1 serial tx]; by rewrite <- (assoc_L (++))|].
    split; [exact Hwr|].
    intros F' HF'. destruct Fs as [|F2 Fs].
    + cbn in HF'. injection HF' as <-. cbn in Ec. injection Ec as <-.
      split; [reflexivity|]. intros x y Hx' Hy'. cbn [w1 rstate r_tft].
      by apply readPixel_spec_ops.
    + apply Hlast. exact HF'.
Qed.

Lemma X9_witness :
  ∃ w', cycles [0; 0; 0]%nat
               (boot_world [] (frames_on_wire [solid_frame 1; solid_frame 2; solid_frame 3] []))
        = Some w' ∧
        tx (serial w') = [ACK; ACK; ACK] ∧ frameBuf w' = solid_frame 3.
Proof.
  destruct (X9_stream_of_frames [solid_frame 1; solid_frame 2; solid_frame 3]
              (boot_world [] (frames_on_wire [solid_frame 1; solid_frame 2; solid_frame 3] []))
              [])
    as (w' & Ec & _ & Htx & _ & Hlast).
  - split; reflexivity.
  - repeat (apply Forall_cons_2;
              [split; [reflexivity | apply Forall_replicate; unfold is_byte; lia]|]).
    apply Forall_nil_2.
  - reflexivity.
  - exists w'. split; [exact Ec|]. split; [exact Htx|].
    apply (Hlast (solid_frame 3)). reflexivity.
Defined.

(** X10: bytes of a frame that reach the receive buffer before the cycle
    starts are flushed, and the frame is lost.  If the first [k] > 0 bytes
    of a frame arrive early and a silence follows the frame, the cycle
    reads only the remaining bytes, draws and acknowledges nothing, and
    leaves that tail in front of the old content of the frame buffer. *)
Theorem X10_bytes_sent_too_early_are_lost
    (w : World) (F : list Z) (rest : list wire_event) (k : nat) :
  wf_world w → valid_frame F → (0 < k ≤ length F)%nat →
  wire (serial w) = (Rx <$> F) ++ Silence :: rest →
  ∃ w', cycles [k] w = Some w' ∧
        rstate w' = rstate w ∧ tx (serial w') = tx (serial w) ∧
        frameBuf w' = drop k F ++ drop (length F - k) (frameBuf w) ∧
        wire (serial w') = rest.
Proof.
  intros Hw [HF HFb] Hk Hwire. cbn [cycles].
  destruct w as [fb rs [r wi t]]. cbn [serial wire frameBuf rstate tx] in *. subst wi.
  rewrite uart_arrive_run by lia.
  rewrite (loop_short_read _ (drop k F) rest); cbn [serial wire frameBuf rstate tx].
  - eexists. split; [reflexivity|]. cbn [serial wire frameBuf rstate tx].
    rewrite length_drop. done.
  - exact Hw.
  - rewrite length_drop. lia.
  - by apply Forall_drop.
  - reflexivity.
Qed.

Lemma X10_witness :
  ∃ w', cycles [5%nat] (boot_world [] ((Rx <$> solid_frame 0x77) ++ Silence :: [])) = Some w' ∧
        rstate w' = boot_rstate ∧ tx (serial w') = [].
Proof.
  destruct (X10_bytes_sent_too_early_are_lost
              (boot_world [] ((Rx <$> solid_frame 0x77) ++ Silence :: []))
              (solid_frame 0x77) [] 5)
    as (w' & Ec & Hr & Htx & _).
  - split; reflexivity.
  - split; [reflexivity | apply Forall_replicate; unfold is_byte; lia].
  - vm_compute. split; repeat constructor.
  - reflexivity.
  - exists w'. split; [exact Ec|]. split; [exact Hr | exact Htx].
Defined.

(** ** Acknowledgements against bytes received *)

Lemma count_bytes_app (w1 w2 : list wire_event) :
  count_bytes (w1 ++ w2) = (count_bytes w1 + count_bytes w2)%nat.
Proof.
  induction w1 as [|[b|] w1 IH]; cbn [app count_bytes]; [reflexivity | | exact IH].
  by rewrite IH.
Qed.

Lemma count_bytes_Rx (l : list Z) : count_bytes (Rx <$> l) = length l.
Proof. induction l as [|b l IH]; [reflexivity|]. cbn. by rewrite IH. Qed.

Lemma count_bytes_drop (n : nat) (w : list wire_event) :
  (count_bytes (drop n w) ≤ count_bytes w)%nat.
Proof.
  revert w. induction n as [|n IH]; intros w; [by rewrite drop_0|].
  destruct w as [|[b|] w]; cbn [drop count_bytes]; [lia | | exact (IH w)].
  pose proof (IH w). lia.
Qed.

Lemma uart_arrive_pending (k : nat) (s : SerialPort) : pending (uart_arrive k s) = pending s.
Proof.
  revert s. induction k as [|k IH]; intros s; [reflexivity|].
  cbn [uart_arrive]. destruct s as [r w t]. cbn [wire rx tx].
  destruct w as [|[b|] w]; [reflexivity | | reflexivity].
  rewrite IH. unfold pending. cbn [rx wire count_bytes]. rewrite length_app. simpl. lia.
Qed.

(** A cycle takes [BYTES_PER_FRAME] pending bytes for each acknowledgement
    it writes, and never creates any. *)
Lemma loop_pending (w : World) :
  wf_world w →
  ∃ w', loop_ w = Some w' ∧ wf_world w' ∧
        ((tx (serial w') = tx (serial w) ++ [ACK] ∧
          (Z.to_nat BYTES_PER_FRAME + pending (serial w') ≤ pending (serial w))%nat)
         ∨ (tx (serial w') = tx (serial w) ∧
            (pending (serial w') ≤ pending (serial w))%nat)).
Proof.
  intros Hw. destruct (loop_cases w Hw) as (got & wr & _ & _ & Hcase).
  destruct Hcase as [(Hlen & Hwire & _ & _ & El)|(Hlen & Hwr & El)];
    eexists; (split; [exact El|]); (split; [by eapply loop_preserves_wf|]).
  - left. split; [reflexivity|]. unfold pending. cbn [serial rx wire length].
    rewrite Hwire, count_bytes_app, count_bytes_Rx. lia.
  - right. split; [reflexivity|]. unfold pending. cbn [serial rx wire length].
    rewrite Hwr. pose proof (count_bytes_drop (S (length got)) (wire (serial w))). lia.
Qed.

(** X11: acknowledgements never outnumber the frames' worth of bytes
    received.  Over any run of cycles, with bytes reaching the receive
    buffer at any moment, each acknowledgement written has used up
    [BYTES_PER_FRAME] of the bytes that were pending at the start. *)
Theorem X11_one_ack_costs_a_frame_of_bytes (arrivals : list nat) (w : World) :
  wf_world w →
  ∃ (w' : World) (k : nat),
    cycles arrivals w = Some w' ∧
    tx (serial w') = tx (serial w) ++ replicate k ACK ∧
    (k * Z.to_nat BYTES_PER_FRAME + pending (serial w') ≤ pending (serial w))%nat.
Proof.
  revert w. induction arrivals as [|a arrivals IH]; intros w Hw.
  - exists w, 0%nat. split; [reflexivity|]. split; [by rewrite app_nil_r | simpl; lia].
  - destruct (loop_pending (MkWorld (frameBuf w) (rstate w) (uart_arrive a (serial w))))
      as (w1 & El & Hw1 & Hc); [exact Hw|].
    cbn [serial] in Hc. rewrite uart_arrive_tx, uart_arrive_pending in Hc.
    destruct (IH w1 Hw1) as (w' & k & Ec & Htx & Hp).
    cbn [cycles]. rewrite El.
    destruct Hc as [[Hx1 Hp1]|[Hx1 Hp1]].
    + exists w', (S k). split; [exact Ec|].
      split; [rewrite Htx, Hx1, <- (assoc_L (++)); reflexivity | lia].
    + exists w', k. split; [exact Ec|]. split; [by rewrite Htx, Hx1 | lia].
Qed.

Lemma X11_witness :
  ∃ w' k,
    cycles [0; 7; 0]%nat
           (boot_world [5] ((Rx <$> solid_frame 0x10) ++ (Rx <$> solid_frame 0x20) ++ [Silence]))
    = Some w' ∧
    tx (serial w') = replicate k ACK ∧ (k ≤ 2)%nat.
Proof.
  destruct (X11_one_ack_costs_a_frame_of_bytes [0; 7; 0]%nat
              (boot_world [5] ((Rx <$> solid_frame 0x10) ++ (Rx <$> solid_frame 0x20)
                                 ++ [Silence])))
    as (w' & k & Ec & Htx & Hp); [split; reflexivity|].
  exists w', k. split; [exact Ec|]. split; [exact Htx|].
  assert (Hpend : pending (serial (boot_world [5] ((Rx <$> solid_frame 0x10)
                     ++ (Rx <$> solid_frame 0x20) ++ [Silence]))) = 3073%nat)
    by (vm_compute; reflexivity).
  rewrite Hpend in Hp. change (Z.to_nat BYTES_PER_FRAME) with 1536%nat in Hp. lia.
Defined.

(** One journalled cycle from the boot state: the ninety-six transfers come
    first, the acknowledgement last. *)
Example loop_io_runs :
  option_map snd (loop_io (boot_world [1; 2] (Rx <$> solid_frame 0xA5), []))
  = Some ((Pushed <$> spec_ops (solid_frame 0xA5)) ++ [Written 0xAA]).
Proof. vm_compute. reflexivity. Qed.
